(** * player-audio: the media gateway of [server.js]

    A shallow embedding of the request handler of [server.js] and of the
    helpers it is built from: [parseQuality], [pickFormat],
    [parseRangeHeader], [mapYtdlError], the [cleanup] closure and the
    [/api/media] route; and of the rate limiter, [sanitizeFilename] and
    [isValidYoutubeUrl].

    Conventions.
    - JavaScript strings are [string]s.  Header values reach Node as
      latin-1, one character per byte; for the other strings only
      comparisons with ASCII literals and ASCII substring tests are made,
      which a byte encoding preserves.  [sanitizeFilename] tells
      characters apart beyond ASCII: there a string is the list of its
      UTF-16 code units.
    - JavaScript numbers are IEEE 754 doubles.  The integers computed
      from a range header are [wholeNumber]s: [Number] and the arithmetic
      on them round to the nearest double and overflow to an infinity
      ([toDouble]); a finite one is kept as the [Z] it equals.  The number
      a query string parses to is a [number], finite rationals or not
      finite.
    - A JavaScript call either returns or throws: [completion].
    - [ytdl-core], the [URL] parser, [Number] on arbitrary strings and the
      file-name sanitizer are taken as parameters ([Ytdl], [Host]); the
      quality rule the repository expects of [ytdl.chooseFormat] is
      modelled separately, from the specification ([chooseFormat_spec]). *)

From Stdlib Require Import String Ascii List ZArith QArith Bool Lia.
Import ListNotations.

Local Open Scope string_scope.
Local Open Scope Z_scope.
Local Open Scope list_scope.

(** ** Completions: a call returns a value or throws *)

Inductive completion (A : Type) : Type :=
| Normal (a : A)
| Throw (message : string).

Arguments Normal {A} a.
Arguments Throw {A} message.

Definition bind {A B : Type} (c : completion A) (k : A -> completion B)
  : completion B :=
  match c with
  | Normal a => k a
  | Throw e => Throw e
  end.

Notation "x <- c ;; k" := (bind c (fun x => k))
  (at level 61, c at next level, right associativity).

(** ** Data model *)

(** One entry of [info.formats].  [qualityRank] is the ordering key of the
    specification's VariantDescriptor; [server.js] never reads it, only the
    modelled quality rule does. *)
Record Format : Type := mkFormat {
  itag : Z;
  hasVideo : bool;
  hasAudio : bool;
  container : option string;
  mimeType : option string;
  contentLength : option Z;
  qualityRank : Z
}.

Record videoInfo : Type := mkInfo {
  formats : list Format;
  title : option string          (* info.videoDetails.title *)
}.

(** What [Number(value)] evaluates to. *)
Inductive number : Type :=
| Finite (q : Q)
| NotFinite.                      (* NaN, Infinity, -Infinity *)

(** The value [parseQuality] returns: ['highest'], ['lowest'] or an itag. *)
Inductive qualityPref : Type :=
| Highest
| Lowest
| Itag (id : Q).

(** The object [pickFormat] returns.  Lines 66, 72 and 76 build
    [{ format, isMuxed }]; line 83 builds
    [{ format: null, audioFormat, videoFormat, isMuxed: false }]. *)
Inductive formatSelection : Type :=
| Chosen (format : option Format) (isMuxed : bool)
| MuxPair (audioFormat videoFormat : option Format).

Definition sel_format (s : formatSelection) : option Format :=
  match s with
  | Chosen f _ => f
  | MuxPair _ _ => None
  end.

Definition sel_videoFormat (s : formatSelection) : option Format :=
  match s with
  | Chosen _ _ => None
  | MuxPair _ v => v
  end.

Definition sel_audioFormat (s : formatSelection) : option Format :=
  match s with
  | Chosen _ _ => None
  | MuxPair a _ => a
  end.

Definition sel_isMuxed (s : formatSelection) : bool :=
  match s with
  | Chosen _ m => m
  | MuxPair _ _ => false
  end.

(** The [{start, end}] object of [parseRangeHeader]. *)
Record RangeWindow : Type := mkRange {
  range_start : Z;
  range_end : Z
}.

(** ** The collaborators *)

(** [ytdl-core] as [server.js] calls it. *)
Record Ytdl : Type := mkYtdl {
  chooseFormat : list Format -> qualityPref -> completion (option Format);
  validateURL : string -> bool;
  getInfo : string -> completion videoInfo
}.

(** The runtime: [Number] on a query string, the WHATWG [URL] test of
    [isValidYoutubeUrl], [sanitizeFilename], and the replacement of a
    file name's last extension by [.mp4] (line 282). *)
Record Host : Type := mkHost {
  Number : string -> number;
  isValidYoutubeUrl : string -> bool;
  sanitizeFilename : string -> string;
  forceMp4Extension : string -> string
}.

(** ** Truthiness *)

Definition truthy_string (s : option string) : bool :=
  match s with
  | None | Some "" => false
  | Some _ => true
  end.

Definition truthy_number (n : option Z) : bool :=
  match n with
  | None | Some 0 => false
  | Some _ => true
  end.

Definition truthy_format (f : option Format) : bool :=
  match f with
  | None => false
  | Some _ => true
  end.

(** ** [parseQuality] (lines 39-45) *)

Definition parseQuality (H : Host) (value : string) : qualityPref :=
  if String.eqb value "" then Highest
  else if String.eqb value "highest" then Highest
  else if String.eqb value "lowest" then Lowest
  else match Number H value with
       | Finite itag => Itag itag
       | NotFinite => Highest
       end.

(** ** The format filters *)

Definition isMuxedFormat (fmt : Format) : bool := hasVideo fmt && hasAudio fmt.
Definition isVideoOnly (fmt : Format) : bool := hasVideo fmt && negb (hasAudio fmt).
Definition isAudioOnly (fmt : Format) : bool := hasAudio fmt && negb (hasVideo fmt).

(** Modelled from the spec: [ytdl.filterFormats(formats, 'audioonly')], a
    function of ytdl-core that is not part of [server.js].  The
    specification's first audio step "filter variants to hasAudio and not
    hasVideo"; it is the predicate line 80 of [server.js] spells out for
    the same purpose. *)
Definition filterFormats_audioonly (fs : list Format) : list Format :=
  filter isAudioOnly fs.

(** ** [pickFormat] (lines 61-84) *)

Definition pickFormat (H : Host) (Y : Ytdl) (info : videoInfo)
    (type quality : string) (enableFfmpeg : bool) : completion formatSelection :=
  let qualityPref := parseQuality H quality in
  if String.eqb type "audio" then
    let audioFormats := filterFormats_audioonly (formats info) in
    format <- chooseFormat Y audioFormats qualityPref ;;
    Normal (Chosen format false)
  else
    let muxed := filter isMuxedFormat (formats info) in
    if negb (Nat.eqb (length muxed) 0) then
      format <- chooseFormat Y muxed qualityPref ;;
      Normal (Chosen format true)
    else if negb enableFfmpeg then
      Normal (Chosen None false)
    else
      let videoOnly := filter isVideoOnly (formats info) in
      let audioOnly := filter isAudioOnly (formats info) in
      videoFormat <- chooseFormat Y videoOnly qualityPref ;;
      audioFormat <- chooseFormat Y audioOnly Highest ;;
      Normal (MuxPair audioFormat videoFormat).

(** ** The quality rule expected of [ytdl.chooseFormat] *)

(** The running extreme of a candidate list: [cur] is replaced only by a
    later candidate that is strictly better, so the first of equals wins. *)
Fixpoint extreme (better : Z -> Z -> bool) (cur : Format) (l : list Format)
  : Format :=
  match l with
  | [] => cur
  | f :: l' =>
      if better (qualityRank f) (qualityRank cur)
      then extreme better f l'
      else extreme better cur l'
  end.

Definition pickHighest (l : list Format) : option Format :=
  match l with
  | [] => None
  | f :: l' => Some (extreme (fun new old => old <? new) f l')
  end.

Definition pickLowest (l : list Format) : option Format :=
  match l with
  | [] => None
  | f :: l' => Some (extreme (fun new old => new <? old) f l')
  end.

Definition hasItag (id : Q) (f : Format) : bool := Qeq_bool (inject_Z (itag f)) id.

(** Modelled from the spec: [ytdl.chooseFormat(formats, { quality })], a
    function of ytdl-core that is not part of [server.js].  The quality
    rule of the specification: an exact identifier picks the variant that
    carries it and behaves as Highest when none does; Highest and Lowest
    order the candidates by [qualityRank] and take the extreme, the first
    listed among equals; an empty candidate list yields no variant.  It
    never throws. *)
Definition chooseFormat_spec (l : list Format) (q : qualityPref)
  : completion (option Format) :=
  match q with
  | Highest => Normal (pickHighest l)
  | Lowest => Normal (pickLowest l)
  | Itag id =>
      match find (hasItag id) l with
      | Some f => Normal (Some f)
      | None => Normal (pickHighest l)
      end
  end.

(** ** [parseRangeHeader] (lines 86-94) *)

Definition isDigit (c : ascii) : bool :=
  match c with
  | "0" | "1" | "2" | "3" | "4" | "5" | "6" | "7" | "8" | "9" => true
  | _ => false
  end%char.

(** The literal [bytes=] under the [i] flag: each letter in either case.
    No other latin-1 character folds to an ASCII letter. *)
Definition bytes_literal : list (ascii * ascii) :=
  [("b", "B"); ("y", "Y"); ("t", "T"); ("e", "E"); ("s", "S"); ("=", "=")]%char.

Fixpoint match_literal (lit : list (ascii * ascii)) (s : string) : option string :=
  match lit with
  | [] => Some s
  | (lo, up) :: lit' =>
      match s with
      | String c s' =>
          if Ascii.eqb c lo || Ascii.eqb c up then match_literal lit' s' else None
      | EmptyString => None
      end
  end.

Fixpoint allDigits (s : string) : bool :=
  match s with
  | String c s' => isDigit c && allDigits s'
  | EmptyString => true
  end.

(** The longest run of digits at the head of [s], and what follows it. *)
Fixpoint span_digits (s : string) : string * string :=
  match s with
  | String c s' =>
      if isDigit c
      then let (d, r) := span_digits s' in (String c d, r)
      else (EmptyString, s)
  | EmptyString => (EmptyString, EmptyString)
  end.

(** The pattern of line 88 tried at the start of [s]: the literal
    [bytes=] in either case, one or more digits (group 1), [-], then any
    number of digits (group 2).  The greedy first group takes the whole
    run of digits; giving digits back cannot help, since the character
    after a shorter run is a digit and not [-]. *)
Definition match_here (s : string) : option (string * string) :=
  match match_literal bytes_literal s with
  | None => None
  | Some r =>
      match span_digits r with
      | (EmptyString, _) => None
      | (d1, String "-" r2) => Some (d1, fst (span_digits r2))
      | (_, _) => None
      end
  end.

(** [regex.exec(s)] for the unanchored pattern: the leftmost position at
    which it matches. *)
Fixpoint regex_exec (s : string) : option (string * string) :=
  match match_here s with
  | Some m => Some m
  | None =>
      match s with
      | String _ s' => regex_exec s'
      | EmptyString => None
      end
  end.

Definition digitValue (c : ascii) : Z := Z.of_nat (nat_of_ascii c) - 48.

Fixpoint digitsValue (acc : Z) (s : string) : Z :=
  match s with
  | String c s' => digitsValue (10 * acc + digitValue c) s'
  | EmptyString => acc
  end.

(** A JavaScript number whose value is an integer, or an infinity.  A
    number is an IEEE 754 double: an integer is kept as it is up to 2^53,
    beyond that it is rounded to the nearest number with 53 significant
    bits (a tie goes to the even significand), and once the rounded
    magnitude reaches 2^1024 it is an infinity of the same sign. *)
Inductive wholeNumber : Type :=
| Whole (z : Z)
| Infinity (negative : bool).

Definition MAX_EXACT : Z := 2 ^ 53.

Definition OVERFLOW : Z := 2 ^ 1024.

(** The nearest integer with at most 53 significant bits, for [0 <= n]. *)
Definition roundMagnitude (n : Z) : Z :=
  if n <? MAX_EXACT then n
  else
    let e := Z.log2 n - 52 in
    let q := Z.shiftr n e in
    let r := n - Z.shiftl q e in
    let half := Z.shiftl 1 (e - 1) in
    Z.shiftl (if (half <? r) || ((r =? half) && Z.odd q) then q + 1 else q) e.

(** The double nearest to the integer [n]. *)
Definition toDouble (n : Z) : wholeNumber :=
  let v := Z.sgn n * roundMagnitude (Z.abs n) in
  if Z.abs v <? OVERFLOW then Whole v else Infinity (n <? 0).

(** [Number(d)] for a string of decimal digits, as Node reads it: the
    double nearest to the decimal value. *)
Definition NumberOfDigits (d : string) : wholeNumber := toDouble (digitsValue 0 d).

(** [a - b] and [a + b] on finite numbers. *)
Definition difference (a b : Z) : wholeNumber := toDouble (a - b).

Definition addition (a b : Z) : wholeNumber := toDouble (a + b).

(** [Number.isFinite]. *)
Definition isFinite (n : wholeNumber) : bool :=
  match n with
  | Whole _ => true
  | Infinity _ => false
  end.

(** [a > b]. *)
Definition exceeds (a b : wholeNumber) : bool :=
  match a, b with
  | Whole x, Whole y => x >? y
  | Whole _, Infinity negative => negative
  | Infinity negative, Whole _ => negb negative
  | Infinity negative, Infinity negative' => negb negative && negative'
  end.

Definition parseRangeHeader (rangeHeader : option string) (size : option Z)
  : option RangeWindow :=
  match rangeHeader, size with
  | Some header, Some total =>
      if negb (truthy_string rangeHeader) || negb (truthy_number size) then None
      else
        match regex_exec header with
        | None => None
        | Some (m1, m2) =>
            let start := NumberOfDigits m1 in
            let end_ := if truthy_string (Some m2) then NumberOfDigits m2
                        else difference total 1 in
            if negb (isFinite start) || negb (isFinite end_) || exceeds start end_
            then None
            else
              match start, end_ with
              | Whole first, Whole last => Some (mkRange first last)
              | _, _ => None
              end
        end
  | _, _ => None
  end.

(** ** [mapYtdlError] (lines 96-104) *)

(** [s.includes(needle)]. *)
Fixpoint includes (s needle : string) : bool :=
  if String.prefix needle s then true
  else match s with
       | String _ s' => includes s' needle
       | EmptyString => false
       end.

Record mappedError : Type := mkMapped {
  mapped_status : Z;
  mapped_message : string
}.

(** [err] is given by the string [String(err && err.message ? err.message : err)]. *)
Definition mapYtdlError (message : string) : mappedError :=
  if includes message "private" then mkMapped 403 "Video is private."
  else if includes message "age-restricted" then mkMapped 403 "Video is age restricted."
  else if includes message "410" then mkMapped 410 "Video is no longer available."
  else if includes message "403" then mkMapped 403 "Access forbidden (possible throttling)."
  else if includes message "Live" then mkMapped 400 "Livestreams are not supported."
  else mkMapped 500 "Failed to fetch media.".

(** ** The response, the upstream streams and the ffmpeg process *)

(** The readable stream [ytdl.downloadFromInfo(info, { format, range })]
    returns, named by the options it was opened with. *)
Inductive stream : Type :=
| Upstream (format : Format) (range : option RangeWindow).

(** The two ways line 190 and line 265 spawn ffmpeg. *)
Inductive ffmpegJob : Type :=
| EncodeMp3        (* -i pipe:3 -vn -c:a libmp3lame -b:a 192k -f mp3 pipe:1 *)
| MuxCopy.         (* -i pipe:3 -i pipe:4 -map 0:v:0 -map 1:a:0 -c copy -f mp4 pipe:1 *)

Inductive source : Type :=
| FromStream (s : stream)
| FfmpegStdout.

Inductive headerValue : Type :=
| Text (s : string)
| Num (n : wholeNumber)
| ContentRangeBytes (first last : Z) (total : option Z).
    (* `bytes ${range.start}-${range.end}/${format.contentLength}` *)

Inductive jsonBody : Type :=
| ErrorJson (error : string)                 (* { error } *)
| SavedJson (filename path : string).        (* { ok: true, filename, path, sizeBytes } *)

(** Every call of the handler that acts on the response, on ytdl, on the
    file system or on a child process. *)
Inductive action : Type :=
| Status (code : Z)                               (* res.status(code) *)
| SetHeader (name : string) (value : headerValue) (* res.setHeader(name, value) *)
| Json (body : jsonBody)                          (* res.json(body) *)
| Download (format : Format) (range : option RangeWindow)
                                                  (* ytdl.downloadFromInfo(info, options) *)
| Push (streams : list stream)                    (* activeStreams.push(...) *)
| Spawn (job : ffmpegJob)                         (* ffmpegProcess = spawn('ffmpeg', ...) *)
| Pipe (s : stream) (fd : nat)                    (* s.pipe(ffmpegProcess.stdio[fd]) *)
| Mkdir (dir : string)                            (* fs.promises.mkdir *)
| PipelineToFile (src : source) (path : string)   (* pipeline(src, fs.createWriteStream(path)) *)
| PipelineToRes (src : source)                    (* pipeline(src, res) *)
| Stat (path : string)                            (* fs.promises.stat *)
| Destroy (s : stream)                            (* stream.destroy() *)
| Kill (job : ffmpegJob).                         (* ffmpegProcess.kill('SIGKILL') *)

(** ** The resource registry and [cleanup] (lines 156-166) *)

(** The two [let] variables of lines 156-157, and the calls made so far. *)
Record resources : Type := mkResources {
  activeStreams : list stream;
  ffmpegProcess : option ffmpegJob;
  performed : list action
}.

Definition noResources : resources := mkResources [] None [].

Definition killIfRunning (p : option ffmpegJob) : list action :=
  match p with
  | Some job => [Kill job]
  | None => []
  end.

Definition cleanup (r : resources) : resources :=
  {| activeStreams := [];
     ffmpegProcess := None;
     performed := performed r ++ map Destroy (activeStreams r)
                              ++ killIfRunning (ffmpegProcess r) |}.

(** One call of the handler: it is recorded, and [push] and [spawn]
    update the registry. *)
Definition step (r : resources) (a : action) : resources :=
  {| activeStreams := match a with
                      | Push ss => activeStreams r ++ ss
                      | _ => activeStreams r
                      end;
     ffmpegProcess := match a with
                      | Spawn job => Some job
                      | _ => ffmpegProcess r
                      end;
     performed := performed r ++ [a] |}.

Definition run (acts : list action) (r : resources) : resources :=
  fold_left step acts r.

(** ** The route [/api/media] (lines 106-299) *)

Record request : Type := mkRequest {
  query_url : option string;
  query_mode : option string;
  query_type : option string;
  query_quality : option string;
  query_downloadTarget : option string;
  query_filename : option string;
  query_enableFfmpeg : option string;
  header_range : option string
}.

(** A destructuring default: it applies when the parameter is absent. *)
Definition orDefault (o : option string) (d : string) : string :=
  match o with
  | Some v => v
  | None => d
  end.

(** [s.endsWith(suffix)]. *)
Fixpoint endsWith (s suffix : string) : bool :=
  if String.eqb s suffix then true
  else match s with
       | String _ s' => endsWith s' suffix
       | EmptyString => false
       end.

(** [s.split(';')[0]]. *)
Fixpoint beforeSemicolon (s : string) : string :=
  match s with
  | String c s' => if Ascii.eqb c ";" then EmptyString else String c (beforeSemicolon s')
  | EmptyString => EmptyString
  end.

Definition mimeOf (format : Format) (fallback : string) : string :=
  match mimeType format with
  | Some m => if truthy_string (Some m) then beforeSemicolon m else fallback
  | None => fallback
  end.

Definition DOWNLOAD_DIR : string := "downloads".

(** [path.join(DOWNLOAD_DIR, name)]. *)
Definition destPathOf (name : string) : string :=
  (DOWNLOAD_DIR ++ "/" ++ name)%string.

Definition quote : string := String "034"%char EmptyString.

(** The disk target, the same four calls in each branch. *)
Definition saveToDisk (src : source) (name : string) : list action :=
  [ Mkdir DOWNLOAD_DIR;
    PipelineToFile src (destPathOf name);
    Stat (destPathOf name);
    Json (SavedJson name (destPathOf name)) ].

(** [range.end - range.start + 1] of line 232. *)
Definition windowLength (w : RangeWindow) : wholeNumber :=
  match difference (range_end w) (range_start w) with
  | Whole d => addition d 1
  | Infinity negative => Infinity negative
  end.

(** The calls of the [try] block in order, and the error the block throws
    by itself after them, if any. *)
Definition tryBlock (type : string) (formatSelection : formatSelection)
    (range : option RangeWindow) (useFfmpeg isDisk : bool)
    (responseFilename contentDisposition : string)
    (forceMp4 : string -> string)
  : list action * option string :=
  if String.eqb type "audio" then
    match sel_format formatSelection with
    | None => ([], Some "Cannot read properties of null (reading 'mimeType')")
    | Some format =>
        let mime := mimeOf format "audio/mp4" in
        let wantMp3 := useFfmpeg && endsWith responseFilename ".mp3" in
        let audioStream := Upstream format None in
        ((if negb isDisk
          then [ SetHeader "Content-Disposition" (Text contentDisposition);
                 SetHeader "Cache-Control" (Text "no-store") ]
          else [])
         ++ (if negb isDisk
             then [ SetHeader "Content-Type" (Text (if wantMp3 then "audio/mpeg" else mime)) ]
             else [])
         ++ [ Download format None; Push [audioStream] ]
         ++ (if wantMp3
             then [ Spawn EncodeMp3; Pipe audioStream 3 ]
                  ++ (if isDisk
                      then saveToDisk FfmpegStdout responseFilename
                      else [ PipelineToRes FfmpegStdout ])
             else if isDisk
                  then saveToDisk (FromStream audioStream) responseFilename
                  else [ PipelineToRes (FromStream audioStream) ]),
         None)
    end
  else
    match sel_format formatSelection with
    | Some format =>
        let mime := mimeOf format "video/mp4" in
        let mediaStream := Upstream format range in
        ((if negb isDisk
          then [ SetHeader "Content-Disposition" (Text contentDisposition);
                 SetHeader "Cache-Control" (Text "no-store");
                 SetHeader "Content-Type" (Text mime);
                 SetHeader "Accept-Ranges" (Text "bytes") ]
          else [])
         ++ (match range with
             | Some w =>
                 if negb isDisk
                 then [ Status 206;
                        SetHeader "Content-Range"
                          (ContentRangeBytes (range_start w) (range_end w)
                                             (contentLength format));
                        SetHeader "Content-Length" (Num (windowLength w)) ]
                 else []
             | None =>
                 match contentLength format with
                 | Some n => if negb isDisk && truthy_number (Some n)
                             then [ SetHeader "Content-Length" (Num (Whole n)) ]
                             else []
                 | None => []
                 end
             end)
         ++ [ Download format range; Push [mediaStream] ]
         ++ (if isDisk
             then saveToDisk (FromStream mediaStream) responseFilename
             else [ PipelineToRes (FromStream mediaStream) ]),
         None)
    | None =>
        match sel_videoFormat formatSelection, sel_audioFormat formatSelection with
        | Some videoFormat, Some audioFormat =>
            if useFfmpeg then
              let videoStream := Upstream videoFormat None in
              let audioStream := Upstream audioFormat None in
              ([ Download videoFormat None; Download audioFormat None;
                 Push [videoStream; audioStream];
                 Spawn MuxCopy;
                 Pipe videoStream 3; Pipe audioStream 4 ]
               ++ (if negb isDisk
                   then [ SetHeader "Content-Disposition" (Text contentDisposition);
                          SetHeader "Cache-Control" (Text "no-store");
                          SetHeader "Content-Type" (Text "video/mp4") ]
                   else [])
               ++ (if isDisk
                   then saveToDisk FfmpegStdout (forceMp4 responseFilename)
                   else [ PipelineToRes FfmpegStdout ]),
               None)
            else ([ Status 500; Json (ErrorJson "Unable to stream media.") ], None)
        | _, _ => ([ Status 500; Json (ErrorJson "Unable to stream media.") ], None)
        end
    end.

(** The calls that send the response head: a body written to the
    response. *)
Definition flushesHead (a : action) : bool :=
  match a with
  | PipelineToRes _ => true
  | Json _ => true
  | _ => false
  end.

(** [res.headersSent]. *)
Definition headersSent (r : resources) : bool :=
  existsb flushesHead (performed r).

(** The [catch] block of lines 294-298.  Once the response head is sent,
    [res.status] still sets the code but [res.json] throws (Node refuses
    a header then), so line 296 does not complete and [cleanup()] on line
    297 is not reached: the streams and the process stay registered, for
    the [close] listeners to tear down. *)
Definition catchBlock (message : string) (r : resources) : resources :=
  let mapped := mapYtdlError message in
  if headersSent r
  then run [ Status (mapped_status mapped) ] r
  else cleanup (run [ Status (mapped_status mapped);
                      Json (ErrorJson (mapped_message mapped)) ] r).

(** The block ends with a body piped to the response. *)
Definition endsInPipelineToRes (acts : list action) : bool :=
  match rev acts with
  | PipelineToRes _ :: _ => true
  | _ => false
  end.

(** The [try] statement.  [fault = Some (k, message)] with [k] below the
    number of calls makes the call number [k] of the block throw [message]
    before it has done anything (any of them can: a pipeline rejected
    before its first byte, a failing [mkdir], a header the response
    refuses); the calls before it have been made.  With [k] the number of
    calls and a block that ends with [pipeline(..., res)], that pipeline
    is rejected with [message] in mid-stream, after it has written to the
    response.  Any other [k] is no failure. *)
Definition runTry (block : list action * option string)
    (fault : option (nat * string)) (r : resources) : resources :=
  let (acts, own) := block in
  let complete :=
    match own with
    | None => run acts r
    | Some message => catchBlock message (run acts r)
    end in
  match fault with
  | Some (k, message) =>
      if Nat.ltb k (length acts)
      then catchBlock message (run (firstn k acts) r)
      else if Nat.eqb k (length acts) && endsInPipelineToRes acts
           then catchBlock message (run acts r)
           else complete
  | None => complete
  end.

(** How a request ends.  [Responded r]: the handler got to answer, and
    [r] holds the calls it completed and what is still registered; this
    includes the [catch] block that throws on line 296, where the calls
    stop at [res.status].  [Rejected]: the promise was rejected by an
    error thrown before any call.  The [close] listeners of lines 168-169
    run [cleanup] later, from the event loop; they are not part of the
    handler's own calls. *)
Inductive outcome : Type :=
| Responded (r : resources)
| Rejected (message : string).

Definition respond (acts : list action) : outcome :=
  Responded (run acts noResources).

(** Lines 134-135 and 145-298: the file name, and what the handler does
    once a format is selected. *)
Definition deliver (H : Host) (type downloadTarget : string)
    (filename rangeHeader : option string) (isDownload useFfmpeg : bool)
    (info : videoInfo) (formatSelection : formatSelection)
    (fault : option (nat * string)) : resources :=
  let title :=
    sanitizeFilename H
      (if truthy_string (title info)
       then orDefault (title info) "youtube-media"
       else "youtube-media") in
  let defaultName :=
    if truthy_string filename
    then sanitizeFilename H (orDefault filename EmptyString)
    else title in
  let range :=
    parseRangeHeader rangeHeader
      (match sel_format formatSelection with
       | Some format => contentLength format
       | None => None
       end) in
  let responseFilename :=
    let ext :=
      match sel_format formatSelection with
      | Some format =>
          if truthy_string (container format)
          then orDefault (container format) EmptyString
          else if String.eqb type "audio" then "m4a" else "mp4"
      | None => if String.eqb type "audio" then "m4a" else "mp4"
      end in
    if endsWith defaultName ("." ++ ext)%string then defaultName
    else (defaultName ++ "." ++ ext)%string in
  let isDisk := isDownload && String.eqb downloadTarget "disk" in
  let contentDisposition :=
    ((if isDownload then "attachment" else "inline")
       ++ "; filename=" ++ quote ++ responseFilename ++ quote)%string in
  runTry
    (tryBlock type formatSelection range useFfmpeg isDisk
       responseFilename contentDisposition (forceMp4Extension H))
    fault noResources.

Definition apiMedia (H : Host) (Y : Ytdl) (req : request)
    (fault : option (nat * string)) : outcome :=
  let mode := orDefault (query_mode req) "stream" in
  let type := orDefault (query_type req) "video" in
  let quality := orDefault (query_quality req) "highest" in
  let downloadTarget := orDefault (query_downloadTarget req) "response" in
  let filename := query_filename req in
  let enableFfmpeg := orDefault (query_enableFfmpeg req) "false" in
  let invalid := respond [ Status 400; Json (ErrorJson "Invalid YouTube URL.") ] in
  match query_url req with
  | None => invalid
  | Some url =>
      if negb (truthy_string (Some url))
         || negb (isValidYoutubeUrl H url) || negb (validateURL Y url)
      then invalid
      else
        let isDownload := String.eqb mode "download" in
        let useFfmpeg := String.eqb enableFfmpeg "true" || String.eqb enableFfmpeg "1" in
        match getInfo Y url with
        | Throw err =>
            let mapped := mapYtdlError err in
            respond [ Status (mapped_status mapped);
                      Json (ErrorJson (mapped_message mapped)) ]
        | Normal info =>
            match pickFormat H Y info type quality useFfmpeg with
            | Throw err => Rejected err
            | Normal formatSelection =>
                if negb (truthy_format (sel_format formatSelection))
                   && negb (truthy_format (sel_videoFormat formatSelection))
                then respond
                       [ Status 409;
                         Json (ErrorJson
                           "No muxed format available. Enable ffmpeg to merge video+audio streams.") ]
                else
                  Responded
                    (deliver H type downloadTarget filename (header_range req)
                       isDownload useFfmpeg info formatSelection fault)
            end
        end
  end.

(** ** Instances used to run the model *)

(** [n] zeros, to write a power of ten. *)
Fixpoint zeros (n : nat) : string :=
  match n with
  | O => EmptyString
  | S n' => String "0" (zeros n')
  end.

(** [Number] restricted to strings of decimal digits; anything else is
    read as not a number. *)
Definition NumberDecimal (s : string) : number :=
  if allDigits s
  then match NumberOfDigits s with
       | Whole z => Finite (inject_Z z)
       | Infinity _ => NotFinite
       end
  else NotFinite.

Definition plainHost : Host :=
  {| Number := NumberDecimal;
     isValidYoutubeUrl := fun _ => true;
     sanitizeFilename := fun name => name;
     forceMp4Extension := fun name => name |}.

(** A ytdl that follows the quality rule of the specification and serves
    one fixed description for every URL. *)
Definition specYtdl (info : videoInfo) : Ytdl :=
  {| chooseFormat := chooseFormat_spec;
     validateURL := fun _ => true;
     getInfo := fun _ => Normal info |}.

Definition fmtMuxed360 : Format :=
  mkFormat 18 true true (Some "mp4") (Some "video/mp4; codecs=avc1") (Some 1000) 360.
Definition fmtVideo1080 : Format :=
  mkFormat 137 true false (Some "mp4") (Some "video/mp4") (Some 9000) 1080.
Definition fmtVideo480 : Format :=
  mkFormat 135 true false (Some "mp4") (Some "video/mp4") (Some 4000) 480.
Definition fmtAudio128 : Format :=
  mkFormat 140 false true (Some "m4a") (Some "audio/mp4") (Some 500) 128.
Definition fmtAudio64 : Format :=
  mkFormat 139 false true (Some "m4a") (Some "audio/mp4") (Some 250) 64.

Definition splitInfo : videoInfo :=
  mkInfo [fmtVideo480; fmtVideo1080; fmtAudio64; fmtAudio128] (Some "clip").
Definition muxedInfo : videoInfo :=
  mkInfo [fmtVideo1080; fmtMuxed360; fmtAudio128] (Some "clip").
Definition muxedOnlyInfo : videoInfo :=
  mkInfo [fmtMuxed360] (Some "clip").

Definition fmtAudioMp3 : Format :=
  mkFormat 600 false true (Some "mp3") (Some "audio/mpeg") None 96.
Definition mp3Info : videoInfo := mkInfo [fmtAudioMp3] (Some "clip").

Definition videoOnlyInfo : videoInfo := mkInfo [fmtVideo480] (Some "clip").

Definition getRequest (type quality enableFfmpeg : string) (range : option string)
  : request :=
  mkRequest (Some "https://youtu.be/x") None (Some type) (Some quality) None None
            (Some enableFfmpeg) range.

(** ** The rate limiter (lines 14-33) *)

Definition RATE_WINDOW_MS : Z := 60000.
Definition RATE_MAX : Z := 30.

Record rateEntry : Type := mkEntry {
  count : Z;
  resetAt : Z
}.

(** The [Map] of line 16, keyed by client address; [None] where
    [rateState.get] answers [undefined]. *)
Definition rateState : Type := string -> option rateEntry.

Definition emptyRateState : rateState := fun _ => None.

(** [rateState.set(ip, entry)]. *)
Definition rateSet (st : rateState) (ip : string) (entry : rateEntry) : rateState :=
  fun key => if String.eqb key ip then Some entry else st key.

(** [req.ip || req.connection.remoteAddress || 'unknown']. *)
Definition clientAddress (ip remoteAddress : option string) : string :=
  if truthy_string ip then orDefault ip "unknown"
  else if truthy_string remoteAddress then orDefault remoteAddress "unknown"
  else "unknown".

(** What the middleware does with the request: [next()], or the 429
    answer. *)
Inductive verdict : Type :=
| Next
| TooManyRequests.

(** The middleware, for a request of client [ip] when [Date.now()] is
    [now]. *)
Definition rateLimit (st : rateState) (ip : string) (now : Z)
  : rateState * verdict :=
  let entry :=
    match st ip with
    | Some entry => entry
    | None => mkEntry 0 (now + RATE_WINDOW_MS)
    end in
  let entry :=
    if now >? resetAt entry then mkEntry 0 (now + RATE_WINDOW_MS) else entry in
  let entry := mkEntry (count entry + 1) (resetAt entry) in
  (rateSet st ip entry,
   if count entry >? RATE_MAX then TooManyRequests else Next).

(** The middleware over a sequence of requests, each a client address and
    an arrival time: the final table and the verdicts in order. *)
Fixpoint rateLimitAll (st : rateState) (requests : list (string * Z))
  : rateState * list verdict :=
  match requests with
  | [] => (st, [])
  | (ip, now) :: rest =>
      let (st1, v) := rateLimit st ip now in
      let (st2, vs) := rateLimitAll st1 rest in
      (st2, v :: vs)
  end.

(** A request that finds no entry, or an entry whose window is over,
    opens a window. *)
Definition opensWindow (st : rateState) (ip : string) (now : Z) : Prop :=
  st ip = None \/ exists entry, st ip = Some entry /\ now > resetAt entry.

(** The verdicts given to client [ip] in a run of the middleware. *)
Definition verdictsFor (ip : string) (requests : list (string * Z))
    (verdicts : list verdict) : list verdict :=
  map snd (filter (fun rv => String.eqb (fst (fst rv)) ip) (combine requests verdicts)).

(** ** [sanitizeFilename] (lines 35-37) *)

Module Filename.

(** A JavaScript string as its UTF-16 code units. *)
Definition jsString : Type := list N.

(** The class of the first pattern: the characters [<], [>], [:], the
    double quote, [/], the backslash, [|], [?] and the star. *)
Definition isForbidden (c : N) : bool :=
  existsb (N.eqb c) [60; 62; 58; 34; 47; 92; 124; 63; 42]%N.

(** The class [\s], which is also what [trim] strips: tab, line feed,
    vertical tab, form feed, carriage return, space, no-break space,
    U+1680, U+2000 to U+200A, U+2028, U+2029, U+202F, U+205F, U+3000 and
    U+FEFF. *)
Definition isWhiteSpace (c : N) : bool :=
  (existsb (N.eqb c) [9; 10; 11; 12; 13; 32; 160; 5760; 8232; 8233; 8239; 8287;
                      12288; 65279]
   || ((8192 <=? c) && (c <=? 8202)))%N.

Definition space : N := 32%N.

(** The first [replace]: every forbidden character is deleted. *)
Definition removeForbidden (s : jsString) : jsString :=
  filter (fun c => negb (isForbidden c)) s.

(** The second [replace]: every maximal run of white space becomes one
    space.  [inRun] tells that the character before belongs to a run
    already replaced. *)
Fixpoint collapseFrom (inRun : bool) (s : jsString) : jsString :=
  match s with
  | [] => []
  | c :: s' =>
      if isWhiteSpace c
      then if inRun then collapseFrom true s' else space :: collapseFrom true s'
      else c :: collapseFrom false s'
  end.

Definition collapseWhiteSpace (s : jsString) : jsString := collapseFrom false s.

Fixpoint trimStart (s : jsString) : jsString :=
  match s with
  | c :: s' => if isWhiteSpace c then trimStart s' else s
  | [] => []
  end.

Definition trimEnd (s : jsString) : jsString := rev (trimStart (rev s)).

(** [s.trim()]. *)
Definition trim (s : jsString) : jsString := trimEnd (trimStart s).

Definition sanitizeFilename (name : jsString) : jsString :=
  trim (collapseWhiteSpace (removeForbidden name)).

(** A tidy name: no forbidden character; its only white space is the
    space character, never two in a row, never first and never last. *)
Definition tidy (s : jsString) : Prop :=
  Forall (fun c => isForbidden c = false) s
  /\ Forall (fun c => isWhiteSpace c = true -> c = space) s
  /\ (forall p c d q, s = p ++ c :: d :: q ->
                      isWhiteSpace c = true -> isWhiteSpace d = false)
  /\ (forall c q, s = c :: q -> isWhiteSpace c = false)
  /\ (forall p c, s = p ++ [c] -> isWhiteSpace c = false).

(** The same about white space, as a scan: [afterSpace] forbids white
    space at the head. *)
Fixpoint spaced (afterSpace : bool) (s : jsString) : Prop :=
  match s with
  | [] => True
  | c :: s' =>
      if isWhiteSpace c
      then c = space /\ afterSpace = false /\ spaced true s'
      else spaced false s'
  end.

(** The characters that are neither forbidden nor white space. *)
Definition isKept (c : N) : bool := negb (isWhiteSpace c) && negb (isForbidden c).

End Filename.

(** ** [isValidYoutubeUrl] (lines 47-59) *)

Module Url.

(** [hostname.replace(/^www\./, '')]. *)
Definition stripWww (hostname : string) : string :=
  match hostname with
  | String "w" (String "w" (String "w" (String "." rest))) => rest
  | _ => hostname
  end.

(** [hostnameOf value] is [new URL(value).hostname], and [None] when the
    constructor throws. *)
Definition isValidYoutubeUrl (hostnameOf : string -> option string)
    (value : string) : bool :=
  match hostnameOf value with
  | Some hostname =>
      let host := stripWww hostname in
      String.eqb host "youtube.com" || String.eqb host "youtu.be"
      || endsWith host ".youtube.com"
  | None => false
  end.

End Url.

(** ** The file name of the response (lines 134-135 and 147-151) *)

Definition defaultNameOf (H : Host) (info : videoInfo) (filename : option string)
  : string :=
  let title :=
    sanitizeFilename H
      (if truthy_string (title info)
       then orDefault (title info) "youtube-media"
       else "youtube-media") in
  if truthy_string filename
  then sanitizeFilename H (orDefault filename EmptyString)
  else title.

Definition extensionOf (type : string) (formatSelection : formatSelection) : string :=
  match sel_format formatSelection with
  | Some format =>
      if truthy_string (container format)
      then orDefault (container format) EmptyString
      else if String.eqb type "audio" then "m4a" else "mp4"
  | None => if String.eqb type "audio" then "m4a" else "mp4"
  end.

Definition responseFilenameOf (defaultName ext : string) : string :=
  if endsWith defaultName ("." ++ ext)%string then defaultName
  else (defaultName ++ "." ++ ext)%string.

(** ** The request as the handler reads it (lines 107-115, 122-123, 153) *)

Definition typeOf (req : request) : string := orDefault (query_type req) "video".

Definition qualityOf (req : request) : string := orDefault (query_quality req) "highest".

Definition useFfmpegOf (req : request) : bool :=
  String.eqb (orDefault (query_enableFfmpeg req) "false") "true"
  || String.eqb (orDefault (query_enableFfmpeg req) "false") "1".

Definition isDownloadOf (req : request) : bool :=
  String.eqb (orDefault (query_mode req) "stream") "download".

Definition isDiskOf (req : request) : bool :=
  isDownloadOf req
  && String.eqb (orDefault (query_downloadTarget req) "response") "disk".

(** The window of line 145. *)
Definition rangeOf (req : request) (formatSelection : formatSelection)
  : option RangeWindow :=
  parseRangeHeader (header_range req)
    (match sel_format formatSelection with
     | Some format => contentLength format
     | None => None
     end).

Definition nameOf (H : Host) (req : request) (info : videoInfo)
    (formatSelection : formatSelection) : string :=
  responseFilenameOf (defaultNameOf H info (query_filename req))
                     (extensionOf (typeOf req) formatSelection).

(** The [try] block of a request, once [info] is fetched and a format
    selected. *)
Definition tryBlockOf (H : Host) (req : request) (info : videoInfo)
    (formatSelection : formatSelection) : list action * option string :=
  tryBlock (typeOf req) formatSelection (rangeOf req formatSelection)
    (useFfmpegOf req) (isDiskOf req) (nameOf H req info formatSelection)
    ((if isDownloadOf req then "attachment" else "inline")
       ++ "; filename=" ++ quote ++ nameOf H req info formatSelection ++ quote)%string
    (forceMp4Extension H).

(** The line 138 test. *)
Definition noViableFormat (formatSelection : formatSelection) : bool :=
  negb (truthy_format (sel_format formatSelection))
  && negb (truthy_format (sel_videoFormat formatSelection)).

(** The calls only the [catch] block and [cleanup] make. *)
Definition isCatchCall (a : action) : Prop :=
  (exists message, a = Status (mapped_status (mapYtdlError message)))
  \/ (exists message, a = Json (ErrorJson (mapped_message (mapYtdlError message))))
  \/ (exists s, a = Destroy s)
  \/ (exists job, a = Kill job).




(** ** Vocabulary of the statements *)

(** A [chooseFormat] that always chooses: on a non-empty candidate list it
    returns one of the candidates. *)
Definition choosesCandidate (Y : Ytdl) : Prop :=
  forall l q, l <> [] -> exists f, chooseFormat Y l q = Normal (Some f) /\ In f l.

(** A weaker demand: whatever it returns is one of the candidates. *)
Definition choosesAmongCandidates (Y : Ytdl) : Prop :=
  forall l q f, chooseFormat Y l q = Normal (Some f) -> In f l.

(** A range clause somewhere in the header: [bytes=] in either case, at
    least one digit, a dash. *)
Definition hasRangeClause (h : string) : Prop :=
  exists pre b d rest,
    h = (pre ++ b ++ d ++ "-" ++ rest)%string
    /\ match_literal bytes_literal b = Some EmptyString
    /\ d <> EmptyString /\ allDigits d = true.

(** The start and the end read from a clause give no window: one of
    them is not finite, or the start exceeds the end. *)
Definition givesNoWindow (start end_ : wholeNumber) : Prop :=
  match start, end_ with
  | Whole first, Whole last => last < first
  | _, _ => True
  end.

(** A call that serves a byte range: status 206, a [Content-Range]
    header, or an upstream fetch bounded by a window. *)
Definition appliesRange (a : action) : Prop :=
  match a with
  | Status code => code = 206
  | SetHeader name _ => name = "Content-Range"
  | Download _ (Some _) => True
  | _ => False
  end.

(** The test of line 117. *)
Definition urlRefused (H : Host) (Y : Ytdl) (req : request) : bool :=
  match query_url req with
  | Some url =>
      negb (truthy_string (Some url))
      || negb (isValidYoutubeUrl H url) || negb (validateURL Y url)
  | None => true
  end.

(** A [chooseFormat] that returns a candidate when there is one and
    nothing when there is none. *)
Definition choosesWhenPossible (Y : Ytdl) : Prop :=
  choosesCandidate Y /\ forall q, chooseFormat Y [] q = Normal None.

(** The variants leave the request without a format to serve: no
    audio-only variant for an audio request; for the others no muxed
    variant and, external muxing being off or not, no video-only variant
    to mux. *)
Definition nothingToServe (info : videoInfo) (type : string) (useFfmpeg : bool)
  : Prop :=
  if String.eqb type "audio"
  then filter isAudioOnly (formats info) = []
  else filter isMuxedFormat (formats info) = []
       /\ (useFfmpeg = false \/ filter isVideoOnly (formats info) = []).

(** ** The failure reasons of the extraction collaborator *)

Inductive reason : Type :=
| Private
| AgeRestricted
| Removed
| Forbidden
| Live.

(** The text by which [mapYtdlError] recognises each reason. *)
Definition keyword (r : reason) : string :=
  match r with
  | Private => "private"
  | AgeRestricted => "age-restricted"
  | Removed => "410"
  | Forbidden => "403"
  | Live => "Live"
  end.

(** The status the specification gives each reason: private,
    age-restricted, removed, live and forbidden content map to 403, 403,
    410, 400 and 403. *)
Definition statusOfReason (r : reason) : Z :=
  match r with
  | Private => 403
  | AgeRestricted => 403
  | Removed => 410
  | Live => 400
  | Forbidden => 403
  end.

(** * Properties *)

(** ** The quality rule *)

Lemma extreme_In better cur l : In (extreme better cur l) (cur :: l).
Proof.
  revert cur; induction l as [|f l IH]; intros cur; simpl.
  - now left.
  - destruct (better (qualityRank f) (qualityRank cur)).
    + right; apply IH.
    + destruct (IH cur) as [E|HIn]; [now left | right; now right].
Qed.

Lemma pickHighest_In l f : pickHighest l = Some f -> In f l.
Proof.
  destruct l as [|g l]; simpl; [discriminate|].
  intros E; injection E as <-; apply extreme_In.
Qed.

Lemma pickLowest_In l f : pickLowest l = Some f -> In f l.
Proof.
  destruct l as [|g l]; simpl; [discriminate|].
  intros E; injection E as <-; apply extreme_In.
Qed.

Lemma extreme_highest_bound l : forall cur g,
  In g (cur :: l) ->
  qualityRank g <= qualityRank (extreme (fun new old => old <? new) cur l).
Proof.
  induction l as [|f l IH]; intros cur g HIn; simpl.
  - destruct HIn as [->|[]]; lia.
  - destruct (qualityRank cur <? qualityRank f) eqn:E.
    + apply Z.ltb_lt in E.
      destruct HIn as [<-|[<-|HIn]].
      * specialize (IH f f (or_introl eq_refl)); lia.
      * apply IH; now left.
      * apply IH; now right.
    + apply Z.ltb_ge in E.
      destruct HIn as [<-|[<-|HIn]].
      * apply IH; now left.
      * specialize (IH cur cur (or_introl eq_refl)); lia.
      * apply IH; now right.
Qed.

(** Highest is a candidate of greatest rank. *)
Lemma pickHighest_greatest l f g :
  pickHighest l = Some f -> In g l -> qualityRank g <= qualityRank f.
Proof.
  destruct l as [|c l]; simpl; [discriminate|].
  intros E; injection E as <-; apply extreme_highest_bound.
Qed.

(** The modelled rule returns normally, a candidate, and one whenever
    there is any. *)
Lemma chooseFormat_spec_returns l q :
  exists o, chooseFormat_spec l q = Normal o /\
            (forall f, o = Some f -> In f l) /\ (l <> [] -> o <> None).
Proof.
  destruct q as [| |id]; simpl.
  - exists (pickHighest l); split; [reflexivity|split].
    + intros f; apply pickHighest_In.
    + destruct l; [congruence|discriminate].
  - exists (pickLowest l); split; [reflexivity|split].
    + intros f; apply pickLowest_In.
    + destruct l; [congruence|discriminate].
  - destruct (find (hasItag id) l) as [f|] eqn:E.
    + exists (Some f); split; [reflexivity|split].
      * intros g Hg; injection Hg as <-; now apply find_some in E.
      * discriminate.
    + exists (pickHighest l); split; [reflexivity|split].
      * intros f; apply pickHighest_In.
      * destruct l; [congruence|discriminate].
Qed.

Lemma specYtdl_choosesCandidate info : choosesCandidate (specYtdl info).
Proof.
  intros l q Hne; simpl.
  destruct (chooseFormat_spec_returns l q) as (o & E & HIn & Hsome).
  destruct o as [f|]; [|now elim (Hsome Hne)].
  exists f; split; [exact E | now apply HIn].
Qed.

Lemma specYtdl_choosesAmongCandidates info : choosesAmongCandidates (specYtdl info).
Proof.
  intros l q f; simpl.
  destruct (chooseFormat_spec_returns l q) as (o & E & HIn & _).
  rewrite E; intros Eo; injection Eo as ->; now apply HIn.
Qed.

(** ** Selection *)

Lemma filter_nonempty {A} (p : A -> bool) l x :
  In x l -> p x = true -> filter p l <> [].
Proof.
  intros HIn Hp E.
  assert (Hx : In x (filter p l)) by (apply filter_In; now split).
  rewrite E in Hx; exact Hx.
Qed.

Lemma length_eqb_0 {A} (l : list A) : Nat.eqb (length l) 0 = true <-> l = [].
Proof. destruct l; simpl; split; congruence. Qed.

(** C1.  When some variant has both video and audio, a video request never
    gets the external-mux pair, whatever the quality and the ffmpeg
    switch, and with a [chooseFormat] that picks among its candidates it
    gets one of the muxed variants. *)
Theorem muxed_variant_is_preferred (H : Host) (Y : Ytdl) (info : videoInfo)
    (quality : string) (enableFfmpeg : bool) :
  (exists m, In m (formats info) /\ hasVideo m = true /\ hasAudio m = true) ->
  (forall a v, pickFormat H Y info "video" quality enableFfmpeg <> Normal (MuxPair a v))
  /\ (choosesCandidate Y ->
      exists f, pickFormat H Y info "video" quality enableFfmpeg
                = Normal (Chosen (Some f) true)
                /\ In f (formats info) /\ hasVideo f = true /\ hasAudio f = true).
Proof.
  intros (m & HIn & Hv & Ha).
  assert (Hne : filter isMuxedFormat (formats info) <> []).
  { apply filter_nonempty with m; [exact HIn|].
    unfold isMuxedFormat; now rewrite Hv, Ha. }
  assert (Hlen : Nat.eqb (length (filter isMuxedFormat (formats info))) 0 = false).
  { destruct (Nat.eqb _ 0) eqn:E; [|reflexivity].
    apply length_eqb_0 in E; contradiction. }
  unfold pickFormat; simpl String.eqb; cbv iota; rewrite Hlen; simpl negb; cbv iota.
  split.
  - intros a v.
    destruct (chooseFormat Y _ _); simpl; discriminate.
  - intros Hchoose.
    destruct (Hchoose _ (parseQuality H quality) Hne) as (f & E & Hf).
    exists f; rewrite E; simpl; split; [reflexivity|].
    apply filter_In in Hf; destruct Hf as [Hf Hm].
    unfold isMuxedFormat in Hm; apply andb_prop in Hm; tauto.
Qed.

Lemma muxed_variant_is_preferred_witness :
  exists f, pickFormat plainHost (specYtdl muxedInfo) muxedInfo "video" "lowest" true
            = Normal (Chosen (Some f) true)
            /\ In f (formats muxedInfo) /\ hasVideo f = true /\ hasAudio f = true.
Proof.
  apply (muxed_variant_is_preferred plainHost (specYtdl muxedInfo) muxedInfo "lowest" true).
  - exists fmtMuxed360; simpl; auto.
  - apply specYtdl_choosesCandidate.
Defined.

Lemma find_hasItag_none l id :
  (forall f, In f l -> hasItag id f = false) -> find (hasItag id) l = None.
Proof.
  induction l as [|g l IH]; intros Hno; simpl; [reflexivity|].
  rewrite (Hno g (or_introl eq_refl)).
  apply IH; intros f Hf; apply Hno; now right.
Qed.

Lemma chooseFormat_spec_unknown_itag l id :
  (forall f, In f l -> hasItag id f = false) ->
  chooseFormat_spec l (Itag id) = chooseFormat_spec l Highest.
Proof.
  intros Hno; simpl; now rewrite (find_hasItag_none l id Hno).
Qed.

Lemma parseQuality_highest H : parseQuality H "highest" = Highest.
Proof. reflexivity. Qed.

Lemma pickFormat_spec_returns H info0 info type quality enableFfmpeg :
  exists s, pickFormat H (specYtdl info0) info type quality enableFfmpeg = Normal s.
Proof.
  unfold pickFormat; simpl chooseFormat.
  destruct (String.eqb type "audio").
  - destruct (chooseFormat_spec_returns (filterFormats_audioonly (formats info))
                (parseQuality H quality)) as (o & -> & _); simpl; eauto.
  - destruct (negb (Nat.eqb (length (filter isMuxedFormat (formats info))) 0)).
    + destruct (chooseFormat_spec_returns (filter isMuxedFormat (formats info))
                  (parseQuality H quality)) as (o & -> & _); simpl; eauto.
    + destruct (negb enableFfmpeg); [eauto|].
      destruct (chooseFormat_spec_returns (filter isVideoOnly (formats info))
                  (parseQuality H quality)) as (v & -> & _); simpl; eauto.
Qed.

(** C2.  Under the modelled quality rule, an exact identifier that no
    candidate carries selects what Highest selects on the same candidate
    list, and returns normally; so does the whole selection when the
    requested quality parses to such an identifier. *)
Theorem unknown_itag_behaves_as_highest (l : list Format) (id : Q) :
  (forall f, In f l -> hasItag id f = false) ->
  chooseFormat_spec l (Itag id) = chooseFormat_spec l Highest
  /\ (exists o, chooseFormat_spec l (Itag id) = Normal o)
  /\ (forall H title type quality enableFfmpeg,
        parseQuality H quality = Itag id ->
        pickFormat H (specYtdl (mkInfo l title)) (mkInfo l title)
                   type quality enableFfmpeg
        = pickFormat H (specYtdl (mkInfo l title)) (mkInfo l title)
                     type "highest" enableFfmpeg
        /\ exists s, pickFormat H (specYtdl (mkInfo l title)) (mkInfo l title)
                                type quality enableFfmpeg = Normal s).
Proof.
  intros Hno.
  assert (Hsub : forall p, chooseFormat_spec (filter p l) (Itag id)
                           = chooseFormat_spec (filter p l) Highest).
  { intros p; apply chooseFormat_spec_unknown_itag.
    intros f Hf; apply Hno; now apply filter_In in Hf. }
  split; [now apply chooseFormat_spec_unknown_itag|].
  split.
  { destruct (chooseFormat_spec_returns l (Itag id)) as (o & E & _); eauto. }
  intros H title type quality enableFfmpeg Hq.
  split; [|apply pickFormat_spec_returns].
  unfold pickFormat, filterFormats_audioonly.
  rewrite Hq, parseQuality_highest.
  cbn [chooseFormat specYtdl formats].
  now rewrite !Hsub.
Qed.

Lemma unknown_itag_behaves_as_highest_witness :
  chooseFormat_spec (formats splitInfo) (Itag (inject_Z 999))
  = chooseFormat_spec (formats splitInfo) Highest
  /\ (exists o, chooseFormat_spec (formats splitInfo) (Itag (inject_Z 999)) = Normal o)
  /\ (forall H title type quality enableFfmpeg,
        parseQuality H quality = Itag (inject_Z 999) ->
        pickFormat H (specYtdl (mkInfo (formats splitInfo) title))
                   (mkInfo (formats splitInfo) title) type quality enableFfmpeg
        = pickFormat H (specYtdl (mkInfo (formats splitInfo) title))
                     (mkInfo (formats splitInfo) title) type "highest" enableFfmpeg
        /\ exists s, pickFormat H (specYtdl (mkInfo (formats splitInfo) title))
                                (mkInfo (formats splitInfo) title)
                                type quality enableFfmpeg = Normal s).
Proof.
  apply (unknown_itag_behaves_as_highest (formats splitInfo) (inject_Z 999)).
  simpl; intros f [<-|[<-|[<-|[<-|[]]]]]; reflexivity.
Defined.

(** C3, as the code has it.  An audio request is served from the
    audio-only variants alone: the selection is whatever [chooseFormat]
    returns on them.  Under the modelled quality rule a chosen variant has
    audio and no video, and when there is no audio-only variant nothing is
    chosen, whether or not other variants carry audio. *)
Theorem audio_request_uses_audio_only_variants (H : Host) (Y : Ytdl)
    (info : videoInfo) (quality : string) (enableFfmpeg : bool) :
  pickFormat H Y info "audio" quality enableFfmpeg
  = (format <- chooseFormat Y (filter isAudioOnly (formats info))
                             (parseQuality H quality) ;;
     Normal (Chosen format false))
  /\ (forall f m,
        pickFormat H (specYtdl info) info "audio" quality enableFfmpeg
        = Normal (Chosen (Some f) m) ->
        In f (formats info) /\ hasAudio f = true /\ hasVideo f = false)
  /\ (filter isAudioOnly (formats info) = [] ->
      pickFormat H (specYtdl info) info "audio" quality enableFfmpeg
      = Normal (Chosen None false)).
Proof.
  split; [reflexivity|split].
  - intros f m; unfold pickFormat, filterFormats_audioonly; simpl.
    destruct (chooseFormat_spec_returns (filter isAudioOnly (formats info))
                (parseQuality H quality)) as (o & -> & HIn & _); simpl.
    intros E; injection E as -> _.
    specialize (HIn f eq_refl); apply filter_In in HIn; destruct HIn as [HIn Hp].
    unfold isAudioOnly in Hp; apply andb_prop in Hp; destruct Hp as [Ha Hv].
    apply negb_true_iff in Hv; auto.
  - intros Hempty; unfold pickFormat, filterFormats_audioonly; simpl.
    rewrite Hempty.
    now destruct (parseQuality H quality).
Qed.

Lemma audio_request_uses_audio_only_variants_witness :
  pickFormat plainHost (specYtdl muxedOnlyInfo) muxedOnlyInfo "audio" "highest" true
  = Normal (Chosen None false).
Proof.
  apply (audio_request_uses_audio_only_variants
           plainHost (specYtdl muxedOnlyInfo) muxedOnlyInfo "highest" true).
  reflexivity.
Defined.

(** C3 as stated fails: with a single variant that has both audio and
    video, there is no audio-only variant, the variants with audio are not
    empty and Highest would choose among them, yet the audio selection
    holds no variant. *)
Lemma audio_fallback_counterexample :
  filter isAudioOnly (formats muxedOnlyInfo) = []
  /\ chooseFormat_spec (filter hasAudio (formats muxedOnlyInfo)) Highest
     = Normal (Some fmtMuxed360)
  /\ pickFormat plainHost (specYtdl muxedOnlyInfo) muxedOnlyInfo "audio" "highest" false
     = Normal (Chosen None false).
Proof. repeat split. Qed.

(** C4.  A video request that ends in the external-mux pair took its
    video member from the video-only variants with the requested quality
    and its audio member from the audio-only variants with Highest,
    whatever was requested; with a [chooseFormat] that picks among its
    candidates each member is a variant of its kind, and under the
    modelled quality rule no audio-only variant outranks the audio
    member. *)
Theorem mux_pair_members (H : Host) (Y : Ytdl) (info : videoInfo)
    (quality : string) (enableFfmpeg : bool) (a v : option Format) :
  pickFormat H Y info "video" quality enableFfmpeg = Normal (MuxPair a v) ->
  chooseFormat Y (filter isVideoOnly (formats info)) (parseQuality H quality) = Normal v
  /\ chooseFormat Y (filter isAudioOnly (formats info)) Highest = Normal a
  /\ (choosesAmongCandidates Y ->
      (forall f, v = Some f ->
                 In f (formats info) /\ hasVideo f = true /\ hasAudio f = false)
      /\ (forall f, a = Some f ->
                    In f (formats info) /\ hasAudio f = true /\ hasVideo f = false))
  /\ (chooseFormat Y = chooseFormat_spec ->
      forall f g, a = Some f -> In g (formats info) -> isAudioOnly g = true ->
                  qualityRank g <= qualityRank f).
Proof.
  unfold pickFormat; simpl String.eqb; cbv iota.
  destruct (negb (Nat.eqb (length (filter isMuxedFormat (formats info))) 0)).
  { destruct (chooseFormat Y _ _); simpl; discriminate. }
  destruct (negb enableFfmpeg); [discriminate|].
  destruct (chooseFormat Y (filter isVideoOnly (formats info)) _) as [v'|] eqn:Ev;
    simpl; [|discriminate].
  destruct (chooseFormat Y (filter isAudioOnly (formats info)) Highest) as [a'|] eqn:Ea;
    simpl; [|discriminate].
  intros E; injection E as -> ->.
  split; [reflexivity|split; [reflexivity|split]].
  - intros Hamong; split; intros f ->.
    + apply Hamong in Ev; apply filter_In in Ev; destruct Ev as [HIn Hp].
      unfold isVideoOnly in Hp; apply andb_prop in Hp; destruct Hp as [Hv Ha].
      apply negb_true_iff in Ha; auto.
    + apply Hamong in Ea; apply filter_In in Ea; destruct Ea as [HIn Hp].
      unfold isAudioOnly in Hp; apply andb_prop in Hp; destruct Hp as [Ha Hv].
      apply negb_true_iff in Hv; auto.
  - intros Hspec f g -> Hg Hp.
    rewrite Hspec in Ea; cbn [chooseFormat_spec] in Ea; injection Ea as Ea.
    apply (pickHighest_greatest _ f g Ea).
    apply filter_In; now split.
Qed.

Lemma mux_pair_members_witness :
  chooseFormat (specYtdl splitInfo) (filter isVideoOnly (formats splitInfo))
               (parseQuality plainHost "lowest") = Normal (Some fmtVideo480)
  /\ chooseFormat (specYtdl splitInfo) (filter isAudioOnly (formats splitInfo)) Highest
     = Normal (Some fmtAudio128)
  /\ (choosesAmongCandidates (specYtdl splitInfo) ->
      (forall f, Some fmtVideo480 = Some f ->
                 In f (formats splitInfo) /\ hasVideo f = true /\ hasAudio f = false)
      /\ (forall f, Some fmtAudio128 = Some f ->
                    In f (formats splitInfo) /\ hasAudio f = true /\ hasVideo f = false))
  /\ (chooseFormat (specYtdl splitInfo) = chooseFormat_spec ->
      forall f g, Some fmtAudio128 = Some f -> In g (formats splitInfo) ->
                  isAudioOnly g = true -> qualityRank g <= qualityRank f).
Proof.
  apply (mux_pair_members plainHost (specYtdl splitInfo) splitInfo "lowest" true
           (Some fmtAudio128) (Some fmtVideo480)).
  reflexivity.
Defined.

(** ** The range header *)

Lemma span_digits_spec s : forall d r,
  span_digits s = (d, r) ->
  s = (d ++ r)%string /\ allDigits d = true
  /\ match r with String c _ => isDigit c = false | EmptyString => True end.
Proof.
  induction s as [|c s IH]; simpl; intros d r E.
  - injection E as <- <-; auto.
  - destruct (isDigit c) eqn:Hc.
    + destruct (span_digits s) as [d' r'].
      injection E as <- <-.
      destruct (IH d' r' eq_refl) as (-> & Hd & Hr).
      simpl; rewrite Hc; auto.
    + injection E as <- <-; simpl; rewrite Hc; auto.
Qed.

Lemma span_digits_app d : forall r,
  allDigits d = true ->
  match r with String c _ => isDigit c = false | EmptyString => True end ->
  span_digits (d ++ r) = (d, r).
Proof.
  induction d as [|c d IH]; simpl; intros r Hd Hr.
  - destruct r as [|c r]; [reflexivity|]; simpl; now rewrite Hr.
  - apply andb_prop in Hd; destruct Hd as [Hc Hd].
    now rewrite Hc, (IH r Hd Hr).
Qed.

Lemma digitValue_digit c : isDigit c = true -> 0 <= digitValue c <= 9.
Proof.
  destruct c as [[] [] [] [] [] [] [] []]; simpl; try discriminate;
    intros _; cbv; split; discriminate.
Qed.

Lemma digitsValue_nonneg d : forall acc,
  allDigits d = true -> 0 <= acc -> 0 <= digitsValue acc d.
Proof.
  induction d as [|c d IH]; cbn [digitsValue allDigits]; intros acc Hd Hacc;
    [exact Hacc|].
  apply andb_prop in Hd; destruct Hd as [Hc Hd].
  apply IH; [exact Hd|].
  pose proof (digitValue_digit c Hc); lia.
Qed.

Lemma MAX_EXACT_below_OVERFLOW : MAX_EXACT < OVERFLOW.
Proof. vm_compute; reflexivity. Qed.

Lemma roundMagnitude_exact n : n < MAX_EXACT -> roundMagnitude n = n.
Proof.
  intros Hn; unfold roundMagnitude.
  apply Z.ltb_lt in Hn; now rewrite Hn.
Qed.

Lemma roundMagnitude_nonneg n : 0 <= n -> 0 <= roundMagnitude n.
Proof.
  intros Hn; unfold roundMagnitude.
  destruct (n <? MAX_EXACT); [exact Hn|].
  apply Z.shiftl_nonneg.
  assert (Hq : 0 <= Z.shiftr n (Z.log2 n - 52)) by now apply Z.shiftr_nonneg.
  destruct (_ || _); lia.
Qed.

(** Beyond 2^53 the rounding is to the nearest double, ties to even: the
    result is a significand of 53 bits at the exponent of [n], it is off
    by at most half a unit in the last place, and a result that is off by
    exactly half has an even significand. *)
Lemma roundMagnitude_nearest n :
  MAX_EXACT <= n ->
  exists q,
    2 ^ 52 <= q <= 2 ^ 53
    /\ roundMagnitude n = q * 2 ^ (Z.log2 n - 52)
    /\ 2 * Z.abs (roundMagnitude n - n) <= 2 ^ (Z.log2 n - 52)
    /\ (2 * Z.abs (roundMagnitude n - n) = 2 ^ (Z.log2 n - 52) -> Z.even q = true).
Proof.
  intros Hn; unfold roundMagnitude.
  assert (Hlt : (n <? MAX_EXACT) = false) by now apply Z.ltb_ge.
  rewrite Hlt.
  assert (Hpos : 0 < n) by (unfold MAX_EXACT in Hn; lia).
  assert (Hlog : 53 <= Z.log2 n).
  { change 53 with (Z.log2 MAX_EXACT); now apply Z.log2_le_mono. }
  destruct (Z.log2_spec n Hpos) as [Hlo Hhi].
  set (e := Z.log2 n - 52) in *.
  assert (He : 1 <= e) by lia.
  replace (Z.succ (Z.log2 n)) with (53 + e) in Hhi by lia.
  replace (Z.log2 n) with (52 + e) in Hlo by lia.
  rewrite Z.pow_add_r in Hlo, Hhi by lia.
  rewrite Z.shiftr_div_pow2, !Z.shiftl_mul_pow2 by lia.
  assert (Hp : 2 ^ e = 2 * 2 ^ (e - 1)).
  { rewrite <- Z.pow_succ_r by lia; f_equal; lia. }
  assert (Hp0 : 0 < 2 ^ (e - 1)) by (apply Z.pow_pos_nonneg; lia).
  pose proof (Z.div_mod n (2 ^ e) ltac:(lia)) as Hdiv.
  pose proof (Z.mod_pos_bound n (2 ^ e) ltac:(lia)) as Hmod.
  set (q := n / 2 ^ e) in *.
  set (r := n mod 2 ^ e) in *.
  set (P := 2 ^ (e - 1)) in *.
  assert (Hr : n - q * 2 ^ e = r) by lia.
  rewrite Hr, Z.mul_1_l.
  assert (Hq : 2 ^ 52 <= q < 2 ^ 53) by (rewrite Hp in *; nia).
  destruct (P <? r) eqn:Hgt; cbn [orb].
  - apply Z.ltb_lt in Hgt.
    exists (q + 1); repeat split; try lia; rewrite Hp in *; try nia.
  - apply Z.ltb_ge in Hgt.
    destruct (r =? P) eqn:Heq; cbn [andb].
    + apply Z.eqb_eq in Heq.
      destruct (Z.odd q) eqn:Hodd.
      * exists (q + 1); repeat split; try lia; rewrite Hp in *; try nia.
        intros _; rewrite Z.even_add, <- Z.negb_odd, Hodd; reflexivity.
      * exists q; repeat split; try lia; rewrite Hp in *; try nia.
        intros _; now rewrite <- Z.negb_odd, Hodd.
    + apply Z.eqb_neq in Heq.
      exists q; repeat split; try lia; rewrite Hp in *; try nia.
Qed.

(** Up to 2^53 in magnitude an integer is a double. *)
Lemma toDouble_exact n : Z.abs n < MAX_EXACT -> toDouble n = Whole n.
Proof.
  intros Hn; unfold toDouble.
  rewrite (roundMagnitude_exact _ Hn), Z.mul_comm, Z.abs_sgn.
  pose proof MAX_EXACT_below_OVERFLOW.
  assert (Hlt : (Z.abs n <? OVERFLOW) = true) by (apply Z.ltb_lt; lia).
  now rewrite Hlt.
Qed.

Lemma toDouble_MAX_EXACT : toDouble MAX_EXACT = Whole MAX_EXACT.
Proof. vm_compute; reflexivity. Qed.

Lemma toDouble_exact_le n : 0 <= n <= MAX_EXACT -> toDouble n = Whole n.
Proof.
  intros [H0 Hn].
  destruct (Z.eq_dec n MAX_EXACT) as [->|Hne]; [exact toDouble_MAX_EXACT|].
  apply toDouble_exact; lia.
Qed.

Lemma toDouble_nonneg n v : 0 <= n -> toDouble n = Whole v -> 0 <= v.
Proof.
  intros Hn; unfold toDouble.
  destruct (_ <? OVERFLOW); [|discriminate].
  intros E; injection E as <-.
  pose proof (roundMagnitude_nonneg (Z.abs n) (Z.abs_nonneg n)).
  pose proof (Z.sgn_nonneg n).
  nia.
Qed.

Lemma NumberOfDigits_nonneg d v :
  allDigits d = true -> NumberOfDigits d = Whole v -> 0 <= v.
Proof.
  intros Hd; apply toDouble_nonneg.
  apply digitsValue_nonneg; [exact Hd | lia].
Qed.

Lemma NumberOfDigits_exact d :
  allDigits d = true -> digitsValue 0 d < MAX_EXACT ->
  NumberOfDigits d = Whole (digitsValue 0 d).
Proof.
  intros Hd Hlt; apply toDouble_exact.
  pose proof (digitsValue_nonneg d 0 Hd (Z.le_refl 0)); lia.
Qed.

(** The first integer that is not a double goes to its even neighbour,
    and so does the next odd one: 2^53 + 1 is read as 2^53, 2^53 + 3 as
    2^53 + 4. *)
Lemma NumberOfDigits_ties_to_even :
  NumberOfDigits "9007199254740993" = Whole 9007199254740992
  /\ NumberOfDigits "9007199254740995" = Whole 9007199254740996.
Proof. split; vm_compute; reflexivity. Qed.

(** The largest double is (2^53 - 1) * 2^971; an integer of 310 digits
    is beyond it. *)
Lemma NumberOfDigits_overflows :
  toDouble ((2 ^ 53 - 1) * 2 ^ 971) = Whole ((2 ^ 53 - 1) * 2 ^ 971)
  /\ toDouble ((2 ^ 53 - 1) * 2 ^ 971 + 2 ^ 970 - 1) = Whole ((2 ^ 53 - 1) * 2 ^ 971)
  /\ toDouble ((2 ^ 53 - 1) * 2 ^ 971 + 2 ^ 970) = Infinity false
  /\ NumberOfDigits ("1" ++ zeros 309) = Infinity false.
Proof. repeat split; vm_compute; reflexivity. Qed.

Lemma match_literal_split lit : forall s r,
  match_literal lit s = Some r ->
  exists b, s = (b ++ r)%string /\ match_literal lit b = Some EmptyString.
Proof.
  induction lit as [|[lo up] lit IH]; simpl; intros s r E.
  - injection E as <-; exists EmptyString; auto.
  - destruct s as [|c s]; [discriminate|].
    destruct (Ascii.eqb c lo || Ascii.eqb c up) eqn:Hc; [|discriminate].
    destruct (IH s r E) as (b & -> & Hb).
    exists (String c b); simpl; rewrite Hc; auto.
Qed.

Lemma match_literal_app lit : forall b x,
  match_literal lit b = Some EmptyString -> match_literal lit (b ++ x) = Some x.
Proof.
  induction lit as [|[lo up] lit IH]; simpl; intros b x E.
  - injection E as ->; reflexivity.
  - destruct b as [|c b]; [discriminate|]; simpl.
    destruct (Ascii.eqb c lo || Ascii.eqb c up); [now apply IH | discriminate].
Qed.

Lemma match_here_digits s m1 m2 :
  match_here s = Some (m1, m2) ->
  m1 <> EmptyString /\ allDigits m1 = true /\ allDigits m2 = true
  /\ exists b rest, s = (b ++ m1 ++ "-" ++ rest)%string
                    /\ match_literal bytes_literal b = Some EmptyString.
Proof.
  unfold match_here.
  destruct (match_literal bytes_literal s) as [r|] eqn:El; [|discriminate].
  destruct (span_digits r) as [d1 r1] eqn:Ed.
  destruct d1 as [|c d1]; [discriminate|].
  destruct r1 as [|c1 r2]; [discriminate|].
  destruct (Ascii.eqb c1 "-") eqn:Hdash.
  - apply Ascii.eqb_eq in Hdash; subst c1.
    intros E; injection E as <- <-.
    destruct (span_digits_spec r _ _ Ed) as (-> & Hd1 & _).
    destruct (match_literal_split _ _ _ El) as (b & -> & Hb).
    destruct (span_digits r2) as [d2 r3] eqn:Ed2.
    destruct (span_digits_spec r2 _ _ Ed2) as (_ & Hd2 & _).
    repeat split; [discriminate | exact Hd1 | exact Hd2 |].
    exists b, r2; auto.
  - intros E; exfalso; revert E Hdash.
    destruct c1 as [[] [] [] [] [] [] [] []]; simpl; congruence.
Qed.

Lemma match_here_complete b d rest :
  match_literal bytes_literal b = Some EmptyString ->
  d <> EmptyString -> allDigits d = true ->
  match_here (b ++ d ++ "-" ++ rest)
  = Some (d, fst (span_digits rest)).
Proof.
  intros Hb Hne Hd; unfold match_here.
  rewrite (match_literal_app _ b _ Hb).
  rewrite (span_digits_app d ("-" ++ rest) Hd) by reflexivity.
  destruct d; [congruence | reflexivity].
Qed.

Lemma regex_exec_found h m :
  regex_exec h = Some m ->
  exists pre s, h = (pre ++ s)%string /\ match_here s = Some m.
Proof.
  induction h as [|c h IH].
  - simpl; discriminate.
  - cbn [regex_exec].
    destruct (match_here (String c h)) eqn:E.
    + intros E'; injection E' as <-; exists EmptyString, (String c h); auto.
    + intros E'; destruct (IH E') as (pre & s & -> & Hs).
      exists (String c pre), s; auto.
Qed.

Lemma regex_exec_groups h m1 m2 :
  regex_exec h = Some (m1, m2) ->
  m1 <> EmptyString /\ allDigits m1 = true /\ allDigits m2 = true.
Proof.
  intros E; destruct (regex_exec_found h _ E) as (pre & s & _ & Hs).
  apply match_here_digits in Hs; tauto.
Qed.

Lemma regex_exec_unfold s :
  regex_exec s
  = match match_here s with
    | Some m => Some m
    | None => match s with
              | String _ s' => regex_exec s'
              | EmptyString => None
              end
    end.
Proof. destruct s; reflexivity. Qed.

Lemma regex_exec_reaches pre : forall s m,
  match_here s = Some m -> regex_exec (pre ++ s) <> None.
Proof.
  induction pre as [|c pre IH]; intros s m Hs.
  - cbn [append]; rewrite regex_exec_unfold, Hs; discriminate.
  - cbn [append]; rewrite regex_exec_unfold.
    destruct (match_here (String c (pre ++ s))); [discriminate | now apply IH with m].
Qed.

(** The pattern finds a match exactly in the headers that hold a range
    clause. *)
Lemma regex_exec_None_iff h : regex_exec h = None <-> ~ hasRangeClause h.
Proof.
  split.
  - intros Hnone (pre & b & d & rest & -> & Hb & Hne & Hd).
    revert Hnone.
    apply (regex_exec_reaches pre _ _ (match_here_complete b d rest Hb Hne Hd)).
  - intros Hno.
    destruct (regex_exec h) as [[m1 m2]|] eqn:E; [|reflexivity].
    exfalso; apply Hno.
    destruct (regex_exec_found h _ E) as (pre & s & -> & Hs).
    destruct (match_here_digits s m1 m2 Hs) as (Hne & Hd & _ & b & rest & -> & Hb).
    exists pre, b, m1, rest; auto.
Qed.

Lemma parseRangeHeader_Some rangeHeader total w :
  parseRangeHeader rangeHeader (Some total) = Some w ->
  exists h m1 m2,
    rangeHeader = Some h /\ regex_exec h = Some (m1, m2)
    /\ NumberOfDigits m1 = Whole (range_start w)
    /\ (if truthy_string (Some m2) then NumberOfDigits m2 else difference total 1)
       = Whole (range_end w)
    /\ range_start w <= range_end w
    /\ total <> 0.
Proof.
  unfold parseRangeHeader.
  destruct rangeHeader as [h|]; [|discriminate].
  destruct (truthy_string (Some h)); [|discriminate].
  destruct (truthy_number (Some total)) eqn:Ht; [|discriminate].
  cbn [negb orb].
  destruct (regex_exec h) as [[m1 m2]|] eqn:E; [|discriminate].
  destruct (NumberOfDigits m1) as [first|] eqn:Es; [|discriminate].
  destruct (if truthy_string (Some m2) then NumberOfDigits m2 else difference total 1)
    as [last|] eqn:Ee; [|discriminate].
  cbn [isFinite exceeds negb orb].
  destruct (first >? last) eqn:Hgt; [discriminate|].
  intros Ew; injection Ew as <-; cbn [range_start range_end].
  rewrite Z.gtb_ltb in Hgt; apply Z.ltb_ge in Hgt.
  exists h, m1, m2.
  refine (conj eq_refl (conj E (conj Es (conj Ee (conj Hgt _))))).
  intros ->; discriminate.
Qed.

Lemma parseRangeHeader_open_ended d total :
  allDigits d = true -> d <> EmptyString -> 0 < total <= MAX_EXACT ->
  digitsValue 0 d <= total - 1 ->
  parseRangeHeader (Some ("bytes=" ++ d ++ "-")%string) (Some total)
  = Some (mkRange (digitsValue 0 d) (total - 1)).
Proof.
  intros Hd Hne Htotal Hle.
  unfold parseRangeHeader.
  assert (Hh : truthy_string (Some ("bytes=" ++ d ++ "-")%string) = true) by reflexivity.
  assert (Ht : truthy_number (Some total) = true) by (destruct total; simpl; lia).
  rewrite Hh, Ht; cbn [negb orb].
  rewrite regex_exec_unfold.
  change ("bytes=" ++ d ++ "-")%string with ("bytes=" ++ d ++ "-" ++ "")%string.
  rewrite (match_here_complete "bytes=" d EmptyString eq_refl Hne Hd).
  cbn [span_digits fst truthy_string].
  rewrite (NumberOfDigits_exact d Hd) by lia.
  unfold difference; rewrite (toDouble_exact (total - 1)) by lia.
  cbn [isFinite exceeds negb orb].
  destruct (digitsValue 0 d >? total - 1) eqn:Hgt; [|reflexivity].
  apply Z.gtb_lt in Hgt; lia.
Qed.

(** C5, as the code has it.  A window returned for a known total length
    starts at or after 0 and ends at or after its start.  Its start is the
    first number of the clause as [Number] reads it.  When the clause
    gives no end, the end is [total - 1] as the subtraction computes it:
    exactly [total - 1] for a total length up to 2^53, which puts both
    ends within [0, total - 1].  When the clause gives an end, the end of
    the window is that number as [Number] reads it, whatever the total
    length.  [bytes=100-] against 1000 bytes is [100, 999]. *)
Theorem range_window_shape :
  (forall rangeHeader total w,
     parseRangeHeader rangeHeader (Some total) = Some w ->
     0 <= range_start w <= range_end w
     /\ exists h m1 m2,
          rangeHeader = Some h /\ regex_exec h = Some (m1, m2)
          /\ NumberOfDigits m1 = Whole (range_start w)
          /\ (m2 = EmptyString ->
              difference total 1 = Whole (range_end w)
              /\ (0 < total <= MAX_EXACT ->
                  range_end w = total - 1 /\ range_start w <= total - 1))
          /\ (m2 <> EmptyString -> NumberOfDigits m2 = Whole (range_end w)))
  /\ (forall d total,
        allDigits d = true -> d <> EmptyString -> 0 < total <= MAX_EXACT ->
        digitsValue 0 d <= total - 1 ->
        parseRangeHeader (Some ("bytes=" ++ d ++ "-")%string) (Some total)
        = Some (mkRange (digitsValue 0 d) (total - 1)))
  /\ (forall d, allDigits d = true -> digitsValue 0 d < MAX_EXACT ->
                NumberOfDigits d = Whole (digitsValue 0 d))
  /\ parseRangeHeader (Some "bytes=100-") (Some 1000) = Some (mkRange 100 999).
Proof.
  split; [|split; [exact parseRangeHeader_open_ended
                  |split; [exact NumberOfDigits_exact | reflexivity]]].
  intros rangeHeader total w Hw.
  destruct (parseRangeHeader_Some _ _ _ Hw)
    as (h & m1 & m2 & -> & E & Hs & He & Hle & Htotal).
  destruct (regex_exec_groups h m1 m2 E) as (_ & Hd1 & _).
  pose proof (NumberOfDigits_nonneg m1 _ Hd1 Hs) as H0.
  split; [lia|].
  exists h, m1, m2; repeat split; auto.
  - subst m2; exact He.
  - subst m2; cbn [truthy_string] in He.
    unfold difference in He; rewrite toDouble_exact in He by lia.
    now injection He.
  - subst m2; cbn [truthy_string] in He.
    unfold difference in He; rewrite toDouble_exact in He by lia.
    injection He as He; lia.
  - intros Hne; destruct m2; [congruence | exact He].
Qed.

Lemma range_window_shape_witness :
  0 <= range_start (mkRange 100 999) <= range_end (mkRange 100 999)
  /\ exists h m1 m2,
       Some "bytes=100-" = Some h /\ regex_exec h = Some (m1, m2)
       /\ NumberOfDigits m1 = Whole (range_start (mkRange 100 999))
       /\ (m2 = EmptyString ->
           difference 1000 1 = Whole (range_end (mkRange 100 999))
           /\ (0 < 1000 <= MAX_EXACT ->
               range_end (mkRange 100 999) = 1000 - 1
               /\ range_start (mkRange 100 999) <= 1000 - 1))
       /\ (m2 <> EmptyString -> NumberOfDigits m2 = Whole (range_end (mkRange 100 999))).
Proof.
  apply (proj1 range_window_shape (Some "bytes=100-") 1000 (mkRange 100 999)).
  reflexivity.
Defined.

(** C5 as stated fails: against 1000 bytes the header [bytes=0-5000] is
    answered with a window whose end, 5000, lies beyond 999. *)
Lemma range_end_beyond_total_counterexample :
  exists w, parseRangeHeader (Some "bytes=0-5000") (Some 1000) = Some w
            /\ ~ (range_end w <= 1000 - 1).
Proof.
  exists (mkRange 0 5000); split; [reflexivity|].
  cbn [range_end]; lia.
Qed.

(** The numbers of a clause are compared as [Number] reads them:
    [bytes=9007199254740993-9007199254740992] reads both as 2^53 and is
    answered with a window, and [bytes=0-] followed by 1 and 309 zeros has
    an end that is not finite and is answered with [null]. *)
Lemma parseRangeHeader_reads_doubles :
  parseRangeHeader (Some "bytes=9007199254740993-9007199254740992") (Some 1000)
  = Some (mkRange 9007199254740992 9007199254740992)
  /\ parseRangeHeader (Some "bytes=0-9007199254740993") (Some 1000)
     = Some (mkRange 0 9007199254740992)
  /\ parseRangeHeader (Some ("bytes=0-1" ++ zeros 309)%string) (Some 1000) = None.
Proof. repeat split; vm_compute; reflexivity. Qed.

(** No [=] at index 5 or later: the pattern cannot start anywhere. *)
Lemma match_literal_bytes_eq s r :
  match_literal bytes_literal s = Some r -> String.get 5 s = Some "="%char.
Proof.
  unfold bytes_literal; cbn [match_literal].
  repeat (destruct s as [|? s]; [discriminate|];
          match goal with
          | |- context [if ?b then _ else _] => destruct b eqn:?; [|discriminate]
          end).
  intros _; cbn [String.get].
  match goal with
  | Hc : (Ascii.eqb ?c "=" || Ascii.eqb ?c "=")%bool = true |- _ =>
      rewrite orb_diag in Hc; apply Ascii.eqb_eq in Hc; now subst c
  end.
Qed.

Lemma regex_exec_no_equals s :
  (forall n, (5 <= n)%nat -> String.get n s <> Some "="%char) ->
  regex_exec s = None.
Proof.
  induction s as [|c s IH]; intros Hno; [reflexivity|].
  rewrite regex_exec_unfold.
  assert (Hm : match_here (String c s) = None).
  { unfold match_here.
    destruct (match_literal bytes_literal (String c s)) as [r|] eqn:E; [|reflexivity].
    apply match_literal_bytes_eq in E.
    now elim (Hno 5%nat (le_n _)). }
  rewrite Hm; apply IH.
  intros n Hn; apply (Hno (S n)); lia.
Qed.

Lemma regex_exec_non_numeric_start rest :
  match rest with String c _ => isDigit c = false | EmptyString => True end ->
  (forall n, String.get n rest <> Some "="%char) ->
  regex_exec ("bytes=" ++ rest) = None.
Proof.
  intros Hfirst Hno.
  rewrite regex_exec_unfold.
  assert (Hm : match_here ("bytes=" ++ rest) = None).
  { unfold match_here.
    rewrite (match_literal_app bytes_literal "bytes=" rest eq_refl).
    pose proof (span_digits_app EmptyString rest eq_refl Hfirst) as Hsp.
    cbn [append] in Hsp; rewrite Hsp; reflexivity. }
  rewrite Hm; cbn [append].
  apply regex_exec_no_equals.
  intros n Hn.
  do 5 (destruct n as [|n]; [lia|]).
  cbn [String.get]; apply Hno.
Qed.

Lemma parseRangeHeader_None_iff h total :
  parseRangeHeader (Some h) (Some total) = None
  <-> h = EmptyString \/ total = 0 \/ ~ hasRangeClause h
      \/ exists m1 m2,
           regex_exec h = Some (m1, m2)
           /\ givesNoWindow (NumberOfDigits m1)
                (if truthy_string (Some m2) then NumberOfDigits m2
                 else difference total 1).
Proof.
  unfold parseRangeHeader.
  destruct (truthy_string (Some h)) eqn:Hh.
  2:{ split; [|reflexivity]; intros _; left.
      destruct h; [reflexivity | discriminate]. }
  destruct (truthy_number (Some total)) eqn:Ht.
  2:{ split; [|reflexivity]; intros _; right; left.
      destruct total; [reflexivity | discriminate | discriminate]. }
  cbn [negb orb].
  assert (Hh' : h <> EmptyString) by (intros ->; discriminate).
  assert (Ht' : total <> 0) by (intros ->; discriminate).
  destruct (regex_exec h) as [[m1 m2]|] eqn:E.
  2:{ split; [|reflexivity]; intros _; right; right; left.
      now apply regex_exec_None_iff. }
  assert (Hclause : ~ ~ hasRangeClause h).
  { intros Hno; apply regex_exec_None_iff in Hno; congruence. }
  set (start := NumberOfDigits m1).
  set (end_ := if truthy_string (Some m2) then NumberOfDigits m2 else difference total 1).
  assert (Hdecide :
            (if negb (isFinite start) || negb (isFinite end_) || exceeds start end_
             then None
             else match start, end_ with
                  | Whole first, Whole last => Some (mkRange first last)
                  | _, _ => None
                  end) = None
            <-> givesNoWindow start end_).
  { destruct start as [first|], end_ as [last|];
      cbn [isFinite exceeds negb orb givesNoWindow]; try tauto.
    destruct (first >? last) eqn:Hgt.
    - apply Z.gtb_lt in Hgt; tauto.
    - rewrite Z.gtb_ltb in Hgt; apply Z.ltb_ge in Hgt.
      split; [discriminate | lia]. }
  rewrite Hdecide; split.
  - intros Hno; right; right; right; exists m1, m2; auto.
  - intros [?|[?|[?|(m1' & m2' & E' & Hno)]]]; try tauto.
    injection E' as <- <-; exact Hno.
Qed.

(** C6, as the code has it.  [parseRangeHeader] answers [null], and being
    a total function never throws, when the header is absent and when the
    total length is unknown.  For a header and a known length it answers
    [null] in these cases and no other: the header is empty, the length is
    0, the header holds no range clause anywhere, or the numbers of its
    first clause give no window, one of them not being finite or the
    start exceeding the end, each as [Number] reads it.  A header holds
    no clause when [bytes=] is followed by something that is not a digit
    and by no further [=]. *)
Theorem negotiate_none_cases :
  (forall size, parseRangeHeader None size = None)
  /\ (forall rangeHeader, parseRangeHeader rangeHeader None = None)
  /\ (forall h total,
        parseRangeHeader (Some h) (Some total) = None
        <-> h = EmptyString \/ total = 0 \/ ~ hasRangeClause h
            \/ exists m1 m2,
                 regex_exec h = Some (m1, m2)
                 /\ givesNoWindow (NumberOfDigits m1)
                      (if truthy_string (Some m2) then NumberOfDigits m2
                       else difference total 1))
  /\ (forall rest size,
        match rest with String c _ => isDigit c = false | EmptyString => True end ->
        (forall n, String.get n rest <> Some "="%char) ->
        parseRangeHeader (Some ("bytes=" ++ rest)%string) size = None).
Proof.
  split; [reflexivity|].
  split; [intros rangeHeader; now destruct rangeHeader|].
  split; [exact parseRangeHeader_None_iff|].
  intros rest size Hfirst Hno; unfold parseRangeHeader.
  destruct size as [total|]; [|reflexivity].
  rewrite (regex_exec_non_numeric_start rest Hfirst Hno).
  now destruct (_ || _).
Qed.

Lemma negotiate_none_cases_witness :
  parseRangeHeader (Some "bytes=500-100") (Some 1000) = None
  /\ parseRangeHeader (Some "bytes=2000-") (Some 1000) = None
  /\ parseRangeHeader (Some "bytes=abc-100") (Some 1000) = None.
Proof.
  destruct negotiate_none_cases as (_ & _ & Hiff & Hstart).
  refine (conj _ (conj _ _)).
  - apply (proj2 (Hiff "bytes=500-100" 1000)); right; right; right.
    exists "500", "100"; split; [reflexivity | vm_compute; reflexivity].
  - apply (proj2 (Hiff "bytes=2000-" 1000)); right; right; right.
    exists "2000", EmptyString; split; [reflexivity | vm_compute; reflexivity].
  - apply (Hstart "abc-100" (Some 1000)); [reflexivity|].
    intros n; do 7 (destruct n as [|n]; [discriminate|]); discriminate.
Defined.

(** C6 as stated fails: a malformed header and a non-numeric start are
    both answered with a window when a range clause stands somewhere in
    the header.  [xbytes=5-10junk] gives the window [5, 10], and
    [bytes=abc, bytes=3-4] the window [3, 4]. *)
Lemma malformed_header_counterexample :
  parseRangeHeader (Some "xbytes=5-10junk") (Some 1000) = Some (mkRange 5 10)
  /\ parseRangeHeader (Some "bytes=abc, bytes=3-4") (Some 1000) = Some (mkRange 3 4).
Proof. split; vm_compute; reflexivity. Qed.

(** ** The error mapping *)

(** C9.  A failure that shows one of the five reasons, and no other,
    is answered with the status of that reason: 403 for private and for
    age-restricted content, 410 for removed content, 400 for a live
    stream, 403 for a forbidden one; a failure that shows none of them is
    answered with 500; no other status is ever produced; and when
    [ytdl.getInfo] fails the handler answers with that status and the
    JSON error, and does nothing else. *)
Theorem extraction_failure_status (message : string) :
  (forall r,
     includes message (keyword r) = true ->
     (forall r', r' <> r -> includes message (keyword r') = false) ->
     mapped_status (mapYtdlError message) = statusOfReason r)
  /\ ((forall r, includes message (keyword r) = false) ->
      mapped_status (mapYtdlError message) = 500)
  /\ In (mapped_status (mapYtdlError message)) [403; 410; 400; 500]
  /\ (forall H Y req fault url,
        query_url req = Some url -> url <> EmptyString ->
        isValidYoutubeUrl H url = true -> validateURL Y url = true ->
        getInfo Y url = Throw message ->
        apiMedia H Y req fault
        = respond [ Status (mapped_status (mapYtdlError message));
                    Json (ErrorJson (mapped_message (mapYtdlError message))) ]).
Proof.
  split; [|split; [|split]];
    [| | |intros H Y req fault url Hurl Hne Hyt Hval Hinfo;
          unfold apiMedia; rewrite Hurl;
          assert (Ht : truthy_string (Some url) = true)
            by (destruct url; [congruence|reflexivity]);
          now rewrite Ht, Hyt, Hval, Hinfo];
    unfold mapYtdlError.
  - intros r Hr Hother.
    assert (Hk : forall r', includes message (keyword r')
                            = if match r, r' with
                                 | Private, Private | AgeRestricted, AgeRestricted
                                 | Removed, Removed | Forbidden, Forbidden
                                 | Live, Live => true
                                 | _, _ => false
                                 end then true else false).
    { intros r'; destruct r, r'; try exact Hr; apply Hother; discriminate. }
    pose proof (Hk Private) as Hp; pose proof (Hk AgeRestricted) as Ha;
      pose proof (Hk Removed) as H410; pose proof (Hk Forbidden) as H403;
      pose proof (Hk Live) as Hl.
    cbn [keyword] in Hp, Ha, H410, H403, Hl.
    rewrite Hp, Ha, H410, H403, Hl.
    now destruct r.
  - intros Hnone.
    pose proof (Hnone Private) as Hp; pose proof (Hnone AgeRestricted) as Ha;
      pose proof (Hnone Removed) as H410; pose proof (Hnone Forbidden) as H403;
      pose proof (Hnone Live) as Hl.
    cbn [keyword] in Hp, Ha, H410, H403, Hl.
    now rewrite Hp, Ha, H410, H403, Hl.
  - destruct (includes message "private"); [simpl; auto|].
    destruct (includes message "age-restricted"); [simpl; auto|].
    destruct (includes message "410"); [simpl; auto|].
    destruct (includes message "403"); [simpl; auto|].
    destruct (includes message "Live"); simpl; auto.
Qed.

Lemma extraction_failure_status_witness :
  mapped_status (mapYtdlError "Status code: 410") = statusOfReason Removed
  /\ mapped_status (mapYtdlError "Live streams cannot be fetched") = statusOfReason Live
  /\ mapped_status (mapYtdlError "socket hang up") = 500
  /\ apiMedia plainHost (mkYtdl chooseFormat_spec (fun _ => true)
                                (fun _ => Throw "Status code: 410"))
              (getRequest "video" "highest" "false" None) None
     = respond [ Status (mapped_status (mapYtdlError "Status code: 410"));
                 Json (ErrorJson (mapped_message (mapYtdlError "Status code: 410"))) ].
Proof.
  refine (conj _ (conj _ (conj _ _))).
  4:{ apply (proj2 (proj2 (proj2 (extraction_failure_status "Status code: 410")))
               plainHost _ (getRequest "video" "highest" "false" None) None
               "https://youtu.be/x"); try reflexivity; discriminate. }
  - apply (proj1 (extraction_failure_status "Status code: 410") Removed).
    + reflexivity.
    + intros r' Hr'; destruct r'; try reflexivity; congruence.
  - apply (proj1 (extraction_failure_status "Live streams cannot be fetched") Live).
    + reflexivity.
    + intros r' Hr'; destruct r'; try reflexivity; congruence.
  - apply (proj1 (proj2 (extraction_failure_status "socket hang up"))).
    intros r; destruct r; reflexivity.
Defined.

(** ** Teardown *)

Lemma performed_run acts : forall r, performed (run acts r) = performed r ++ acts.
Proof.
  unfold run; induction acts as [|a acts IH]; intros r; cbn [fold_left].
  - now rewrite app_nil_r.
  - rewrite IH; cbn [step performed]; now rewrite <- app_assoc.
Qed.

Lemma NoDup_destroy_kill streams p :
  NoDup streams -> NoDup (map Destroy streams ++ killIfRunning p).
Proof.
  intros Hnd.
  induction Hnd as [|x l Hx Hnd IH]; cbn [map app].
  - destruct p; cbn [killIfRunning]; repeat constructor; intros [].
  - constructor; [|exact IH].
    intros HIn; apply in_app_or in HIn; destruct HIn as [HIn|HIn].
    + apply in_map_iff in HIn; destruct HIn as (y & E & Hy).
      injection E as ->; contradiction.
    + destruct p; cbn [killIfRunning] in HIn; [destruct HIn as [E|[]]; discriminate|].
      destruct HIn.
Qed.

(** C7.  Running [cleanup] a second time changes nothing: the state after
    two runs is the state after one, and so after any number of further
    runs; over both runs the calls made are one [destroy] for each entry
    of [activeStreams] followed by one [kill] when a process is
    registered, so with distinct entries no stream is destroyed twice and
    the process is not killed twice; the second run makes no call, hence
    none that could fail. *)
Theorem cleanup_idempotent (r : resources) :
  cleanup (cleanup r) = cleanup r
  /\ (forall n, Nat.iter (S n) cleanup r = cleanup r)
  /\ activeStreams (cleanup r) = [] /\ ffmpegProcess (cleanup r) = None
  /\ performed (cleanup (cleanup r))
     = performed r ++ map Destroy (activeStreams r) ++ killIfRunning (ffmpegProcess r)
  /\ performed (cleanup (cleanup r)) = performed (cleanup r)
  /\ (NoDup (activeStreams r) ->
      NoDup (map Destroy (activeStreams r) ++ killIfRunning (ffmpegProcess r))).
Proof.
  assert (Htwice : forall r0, cleanup (cleanup r0) = cleanup r0).
  { intros r0; unfold cleanup; cbn [activeStreams ffmpegProcess performed map killIfRunning].
    now rewrite !app_nil_r. }
  split; [apply Htwice|].
  split.
  { induction n as [|n IH]; [reflexivity|].
    change (Nat.iter (S (S n)) cleanup r) with (cleanup (Nat.iter (S n) cleanup r)).
    now rewrite IH. }
  split; [reflexivity|split; [reflexivity|]].
  split; [now rewrite Htwice|].
  split; [now rewrite Htwice|].
  apply NoDup_destroy_kill.
Qed.

Lemma cleanup_idempotent_witness :
  NoDup (map Destroy [Upstream fmtVideo480 None; Upstream fmtAudio128 None]
         ++ killIfRunning (Some MuxCopy)).
Proof.
  apply (cleanup_idempotent
           (mkResources [Upstream fmtVideo480 None; Upstream fmtAudio128 None]
                        (Some MuxCopy) [])).
  cbn [activeStreams].
  constructor; [intros [E|[]]; discriminate|].
  constructor; [intros []|constructor].
Defined.

(** ** The route *)

Lemma filter_all_false {A} (p : A -> bool) l :
  (forall x, In x l -> p x = false) -> filter p l = [].
Proof.
  induction l as [|x l IH]; intros Hno; cbn [filter]; [reflexivity|].
  rewrite (Hno x (or_introl eq_refl)).
  apply IH; intros y Hy; apply Hno; now right.
Qed.

Lemma split_variant_not_muxed f :
  isVideoOnly f = true \/ isAudioOnly f = true -> isMuxedFormat f = false.
Proof.
  unfold isVideoOnly, isAudioOnly, isMuxedFormat.
  destruct (hasVideo f), (hasAudio f); simpl; intuition congruence.
Qed.

(** C8.  A video request for a source whose variants are all video-only or
    audio-only, with external muxing not enabled, selects nothing, and the
    handler makes exactly two calls: status 409 and a JSON error.  No
    stream is opened and nothing is piped, whatever [chooseFormat] does. *)
Theorem split_only_without_ffmpeg_is_409 (H : Host) (Y : Ytdl) (req : request)
    (fault : option (nat * string)) (url : string) (info : videoInfo) :
  query_url req = Some url -> url <> EmptyString ->
  isValidYoutubeUrl H url = true -> validateURL Y url = true ->
  getInfo Y url = Normal info ->
  orDefault (query_type req) "video" = "video" ->
  (forall f, In f (formats info) -> isVideoOnly f = true \/ isAudioOnly f = true) ->
  orDefault (query_enableFfmpeg req) "false" <> "true" ->
  orDefault (query_enableFfmpeg req) "false" <> "1" ->
  pickFormat H Y info "video" (orDefault (query_quality req) "highest") false
  = Normal (Chosen None false)
  /\ apiMedia H Y req fault
     = Responded
         (mkResources [] None
            [ Status 409;
              Json (ErrorJson
                "No muxed format available. Enable ffmpeg to merge video+audio streams.") ]).
Proof.
  intros Hurl Hne Hyt Hval Hinfo Htype Hsplit Hff1 Hff2.
  assert (Hmux : filter isMuxedFormat (formats info) = []).
  { apply filter_all_false; intros f Hf.
    apply split_variant_not_muxed; now apply Hsplit. }
  assert (Hpick : pickFormat H Y info "video" (orDefault (query_quality req) "highest") false
                  = Normal (Chosen None false)).
  { unfold pickFormat; simpl String.eqb; cbv iota; now rewrite Hmux. }
  split; [exact Hpick|].
  unfold apiMedia; rewrite Hurl.
  assert (Ht : truthy_string (Some url) = true) by (destruct url; [congruence|reflexivity]).
  rewrite Ht, Hyt, Hval; cbn [negb orb]; rewrite Hinfo, Htype.
  apply String.eqb_neq in Hff1, Hff2; rewrite Hff1, Hff2; cbn [orb].
  rewrite Hpick; reflexivity.
Qed.

Lemma split_only_without_ffmpeg_is_409_witness :
  pickFormat plainHost (specYtdl splitInfo) splitInfo "video" "highest" false
  = Normal (Chosen None false)
  /\ apiMedia plainHost (specYtdl splitInfo)
              (getRequest "video" "highest" "false" (Some "bytes=0-99")) None
     = Responded
         (mkResources [] None
            [ Status 409;
              Json (ErrorJson
                "No muxed format available. Enable ffmpeg to merge video+audio streams.") ]).
Proof.
  apply (split_only_without_ffmpeg_is_409 plainHost (specYtdl splitInfo)
           (getRequest "video" "highest" "false" (Some "bytes=0-99")) None
           "https://youtu.be/x" splitInfo);
    try reflexivity; try discriminate.
  simpl; intros f [<-|[<-|[<-|[<-|[]]]]]; auto.
Defined.

Lemma mapped_status_values message :
  In (mapped_status (mapYtdlError message)) [403; 410; 400; 500].
Proof.
  unfold mapYtdlError.
  repeat match goal with
         | |- context [if ?b then _ else _] => destruct b
         end; simpl; auto.
Qed.

Lemma performed_cleanup r :
  performed (cleanup r)
  = performed r ++ map Destroy (activeStreams r) ++ killIfRunning (ffmpegProcess r).
Proof. reflexivity. Qed.

Section TryInvariant.

(** A property of calls that the [catch] block cannot break. *)
Variable P : action -> Prop.
Hypothesis P_status : forall message, P (Status (mapped_status (mapYtdlError message))).
Hypothesis P_json : forall body, P (Json body).
Hypothesis P_destroy : forall s, P (Destroy s).
Hypothesis P_kill : forall job, P (Kill job).

Lemma catchBlock_Forall message r :
  Forall P (performed r) -> Forall P (performed (catchBlock message r)).
Proof.
  intros Hr; unfold catchBlock.
  destruct (headersSent r).
  { rewrite performed_run; apply Forall_app; split; auto. }
  rewrite performed_cleanup, performed_run.
  repeat (apply Forall_app; split); auto.
  - apply Forall_forall; intros a Ha.
    apply in_map_iff in Ha; destruct Ha as (x & <- & _); apply P_destroy.
  - destruct (ffmpegProcess _); cbn [killIfRunning]; auto.
Qed.

Lemma runTry_Forall acts own fault r :
  Forall P acts -> Forall P (performed r) ->
  Forall P (performed (runTry (acts, own) fault r)).
Proof.
  intros Hacts Hr; unfold runTry.
  assert (Hrun : Forall P (performed (run acts r))).
  { rewrite performed_run; apply Forall_app; now split. }
  assert (Hcomplete : Forall P (performed match own with
                                          | None => run acts r
                                          | Some message => catchBlock message (run acts r)
                                          end)).
  { destruct own; [now apply catchBlock_Forall | exact Hrun]. }
  destruct fault as [[k message]|]; [|exact Hcomplete].
  destruct (Nat.ltb k (length acts)).
  - apply catchBlock_Forall.
    rewrite performed_run; apply Forall_app; split; [exact Hr|].
    rewrite <- (firstn_skipn k acts) in Hacts.
    now apply Forall_app in Hacts.
  - destruct (Nat.eqb k (length acts) && endsInPipelineToRes acts);
      [now apply catchBlock_Forall | exact Hcomplete].
Qed.

End TryInvariant.

Lemma catch_status_not_206 message :
  ~ appliesRange (Status (mapped_status (mapYtdlError message))).
Proof.
  cbn [appliesRange]; intros E.
  pose proof (mapped_status_values message) as HIn; rewrite E in HIn.
  simpl in HIn; intuition discriminate.
Qed.

Ltac no_range_calls :=
  repeat first
    [ apply Forall_nil
    | apply Forall_cons; [cbn [appliesRange]; first [tauto | discriminate]|]
    | apply Forall_app; split ].

Lemma tryBlock_audio_no_range sel range useFfmpeg isDisk name disposition force :
  Forall (fun a => ~ appliesRange a)
         (fst (tryBlock "audio" sel range useFfmpeg isDisk name disposition force)).
Proof.
  unfold tryBlock, saveToDisk; simpl String.eqb; cbv iota.
  destruct (sel_format sel) as [format|]; cbn [fst]; [|constructor].
  destruct isDisk, (useFfmpeg && endsWith name ".mp3")%bool; cbn [negb];
    no_range_calls.
Qed.

Lemma tryBlock_without_window type sel useFfmpeg isDisk name disposition force :
  Forall (fun a => ~ appliesRange a)
         (fst (tryBlock type sel None useFfmpeg isDisk name disposition force)).
Proof.
  unfold tryBlock, saveToDisk.
  destruct (String.eqb type "audio").
  { destruct (sel_format sel) as [format|]; cbn [fst]; [|constructor].
    destruct isDisk, (useFfmpeg && endsWith name ".mp3")%bool; cbn [negb];
      no_range_calls. }
  destruct (sel_format sel) as [format|]; cbn [fst].
  { destruct isDisk; cbn [negb andb];
      destruct (contentLength format) as [n|]; try destruct (truthy_number (Some n));
      no_range_calls. }
  destruct (sel_videoFormat sel), (sel_audioFormat sel); cbn [fst];
    try destruct useFfmpeg; try destruct isDisk; cbn [negb fst];
    no_range_calls.
Qed.

Lemma tryBlock_without_format type sel range useFfmpeg isDisk name disposition force :
  sel_format sel = None ->
  Forall (fun a => ~ appliesRange a)
         (fst (tryBlock type sel range useFfmpeg isDisk name disposition force)).
Proof.
  intros Hnone; unfold tryBlock, saveToDisk; rewrite Hnone.
  destruct (String.eqb type "audio"); cbn [fst]; [constructor|].
  destruct (sel_videoFormat sel), (sel_audioFormat sel); cbn [fst];
    try destruct useFfmpeg; try destruct isDisk; cbn [negb fst];
    no_range_calls.
Qed.

Lemma runTry_no_range block fault :
  Forall (fun a => ~ appliesRange a) (fst block) ->
  Forall (fun a => ~ appliesRange a) (performed (runTry block fault noResources)).
Proof.
  destruct block as [acts own]; cbn [fst]; intros Hacts.
  apply runTry_Forall; auto using catch_status_not_206.
Qed.

(** The three ways [deliver] makes no call that serves a range. *)
Lemma deliver_no_range H type downloadTarget filename rangeHeader isDownload
    useFfmpeg info sel fault :
  type = "audio" \/ sel_format sel = None
  \/ parseRangeHeader rangeHeader
       (match sel_format sel with
        | Some format => contentLength format
        | None => None
        end) = None ->
  Forall (fun a => ~ appliesRange a)
         (performed (deliver H type downloadTarget filename rangeHeader isDownload
                       useFfmpeg info sel fault)).
Proof.
  intros Hcase; unfold deliver; apply runTry_no_range.
  destruct Hcase as [->|[Hnone|Hrange]].
  - apply tryBlock_audio_no_range.
  - now apply tryBlock_without_format.
  - rewrite Hrange; apply tryBlock_without_window.
Qed.

Lemma respond_no_range code body r :
  code <> 206 ->
  respond [Status code; Json body] = Responded r ->
  Forall (fun a => ~ appliesRange a) (performed r).
Proof.
  intros Hcode E; injection E as <-; cbn.
  repeat constructor; cbn [appliesRange]; tauto.
Qed.

Lemma pickFormat_video_format H Y info type quality useFfmpeg sel format :
  String.eqb type "audio" = false ->
  pickFormat H Y info type quality useFfmpeg = Normal sel ->
  sel_format sel = Some format ->
  sel = Chosen (Some format) true.
Proof.
  intros Htype; unfold pickFormat; rewrite Htype.
  destruct (negb (Nat.eqb (length (filter isMuxedFormat (formats info))) 0)).
  - destruct (chooseFormat Y _ _) as [o|]; simpl; [|discriminate].
    intros E; injection E as <-; simpl; now intros ->.
  - destruct (negb useFfmpeg).
    + intros E; injection E as <-; discriminate.
    + destruct (chooseFormat Y _ _) as [v|]; simpl; [|discriminate].
      destruct (chooseFormat Y _ _) as [a|]; simpl; [|discriminate].
      intros E; injection E as <-; discriminate.
Qed.

(** C10.  A request with [type=audio] never has a byte range applied:
    among the calls of the handler there is no status 206, no
    [Content-Range] header, and every upstream fetch is opened without a
    window - also when the body fails and the [catch] block answers.
    Whenever the handler does make a call that serves a range, the request
    is not an audio request, the selection is a single muxed variant and
    the header negotiated a window against that variant's length. *)
Theorem audio_request_never_serves_range :
  (forall H Y req fault r,
     orDefault (query_type req) "video" = "audio" ->
     apiMedia H Y req fault = Responded r ->
     ~ In (Status 206) (performed r)
     /\ (forall value, ~ In (SetHeader "Content-Range" value) (performed r))
     /\ (forall format range,
           In (Download format range) (performed r) -> range = None))
  /\ (forall H Y req fault r a,
        apiMedia H Y req fault = Responded r ->
        In a (performed r) -> appliesRange a ->
        orDefault (query_type req) "video" <> "audio"
        /\ exists url info format window,
             query_url req = Some url /\ getInfo Y url = Normal info
             /\ pickFormat H Y info
                   (orDefault (query_type req) "video")
                   (orDefault (query_quality req) "highest")
                   (String.eqb (orDefault (query_enableFfmpeg req) "false") "true"
                    || String.eqb (orDefault (query_enableFfmpeg req) "false") "1")
                 = Normal (Chosen (Some format) true)
             /\ parseRangeHeader (header_range req) (contentLength format)
                 = Some window).
Proof.
  assert (Hserved : forall H Y req fault r a,
             apiMedia H Y req fault = Responded r ->
             In a (performed r) -> appliesRange a ->
             orDefault (query_type req) "video" <> "audio"
             /\ exists url info format window,
                  query_url req = Some url /\ getInfo Y url = Normal info
                  /\ pickFormat H Y info
                        (orDefault (query_type req) "video")
                        (orDefault (query_quality req) "highest")
                        (String.eqb (orDefault (query_enableFfmpeg req) "false") "true"
                         || String.eqb (orDefault (query_enableFfmpeg req) "false") "1")
                      = Normal (Chosen (Some format) true)
                  /\ parseRangeHeader (header_range req) (contentLength format)
                      = Some window).
  { intros H Y req fault r a Hres Ha Hserves.
    assert (Hfree : Forall (fun a => ~ appliesRange a) (performed r) -> False).
    { intros Hall; rewrite Forall_forall in Hall; exact (Hall a Ha Hserves). }
    revert Hres; unfold apiMedia.
    destruct (query_url req) as [url|];
      [|intros E; exfalso; apply Hfree;
        eapply respond_no_range; [|exact E]; discriminate].
    destruct (_ || _);
      [intros E; exfalso; apply Hfree;
       eapply respond_no_range; [|exact E]; discriminate|].
    destruct (getInfo Y url) as [info|err] eqn:Hinfo.
    2:{ intros E; exfalso; apply Hfree.
        eapply respond_no_range; [|exact E]; apply catch_status_not_206. }
    destruct (pickFormat H Y info _ _ _) as [sel|err] eqn:Hpick; [|discriminate].
    destruct (_ && _);
      [intros E; exfalso; apply Hfree;
       eapply respond_no_range; [|exact E]; discriminate|].
    intros E; injection E as <-.
    destruct (String.eqb (orDefault (query_type req) "video") "audio") eqn:Htype.
    { exfalso; apply Hfree, deliver_no_range; left; now apply String.eqb_eq. }
    destruct (sel_format sel) as [format|] eqn:Hformat.
    2:{ exfalso; apply Hfree, deliver_no_range; right; now left. }
    destruct (parseRangeHeader (header_range req) (contentLength format))
      as [window|] eqn:Hrange.
    2:{ exfalso; apply Hfree, deliver_no_range; right; right.
        now rewrite Hformat. }
    split; [now apply String.eqb_neq|].
    exists url, info, format, window; repeat split; auto.
    rewrite Hpick; f_equal.
    now apply (pickFormat_video_format H Y info _ _ _ sel format Htype Hpick). }
  split; [|exact Hserved].
  intros H Y req fault r Htype Hres.
  assert (Hnone : forall a, In a (performed r) -> ~ appliesRange a).
  { intros a Ha Hserves.
    destruct (Hserved H Y req fault r a Hres Ha Hserves) as [Hne _]; contradiction. }
  split; [|split].
  - intros HIn; now apply (Hnone _ HIn).
  - intros value HIn; now apply (Hnone _ HIn).
  - intros format [window|] HIn; [|reflexivity].
    now elim (Hnone _ HIn).
Qed.

Lemma audio_request_never_serves_range_witness :
  ~ In (Status 206)
       (performed
          (deliver plainHost "audio" "response" None (Some "bytes=10-99") false true
             splitInfo (Chosen (Some fmtAudio64) false) None))
  /\ (forall value,
        ~ In (SetHeader "Content-Range" value)
             (performed
                (deliver plainHost "audio" "response" None (Some "bytes=10-99") false true
                   splitInfo (Chosen (Some fmtAudio64) false) None)))
  /\ (forall format range,
        In (Download format range)
           (performed
              (deliver plainHost "audio" "response" None (Some "bytes=10-99") false true
                 splitInfo (Chosen (Some fmtAudio64) false) None)) ->
        range = None).
Proof.
  exact (proj1 audio_request_never_serves_range plainHost (specYtdl splitInfo)
           (getRequest "audio" "lowest" "true" (Some "bytes=10-99")) None _
           eq_refl eq_refl).
Defined.

(** * Further properties of [server.js] *)

(** ** The rate limiter *)

Lemma rateSet_same st ip entry : rateSet st ip entry ip = Some entry.
Proof. unfold rateSet; now rewrite String.eqb_refl. Qed.

Lemma rateSet_other st ip entry key :
  key <> ip -> rateSet st ip entry key = st key.
Proof.
  intros Hne; unfold rateSet.
  apply String.eqb_neq in Hne; now rewrite Hne.
Qed.

Lemma rateLimit_opens st ip now :
  opensWindow st ip now ->
  rateLimit st ip now
  = (rateSet st ip (mkEntry 1 (now + RATE_WINDOW_MS)), Next).
Proof.
  unfold rateLimit, RATE_WINDOW_MS.
  intros [Hnone|(entry & Hsome & Hgt)].
  - rewrite Hnone; cbn [resetAt count].
    assert (E : (now >? now + 60000) = false)
      by (rewrite Z.gtb_ltb; apply Z.ltb_ge; lia).
    rewrite E; reflexivity.
  - rewrite Hsome.
    assert (E : (now >? resetAt entry) = true) by (apply Z.gtb_lt; lia).
    rewrite E; reflexivity.
Qed.

Lemma rateLimit_within st ip now c R :
  st ip = Some (mkEntry c R) -> now <= R ->
  rateLimit st ip now
  = (rateSet st ip (mkEntry (c + 1) R),
     if c + 1 >? RATE_MAX then TooManyRequests else Next).
Proof.
  intros Hsome Hle; unfold rateLimit; rewrite Hsome; cbn [resetAt count].
  assert (E : (now >? R) = false) by (rewrite Z.gtb_ltb; apply Z.ltb_ge; lia).
  rewrite E; reflexivity.
Qed.

Lemma rateLimitAll_within ip times : forall st c R,
  st ip = Some (mkEntry c R) ->
  Forall (fun now => now <= R) times ->
  fst (rateLimitAll st (map (pair ip) times)) ip
  = Some (mkEntry (c + Z.of_nat (length times)) R)
  /\ length (snd (rateLimitAll st (map (pair ip) times))) = length times
  /\ forall i v,
       nth_error (snd (rateLimitAll st (map (pair ip) times))) i = Some v ->
       (v = Next <-> c + Z.of_nat i + 1 <= RATE_MAX).
Proof.
  induction times as [|now times IH]; intros st c R Hsome Hall.
  - cbn; rewrite Z.add_0_r; split; [exact Hsome|split; [reflexivity|]].
    intros [|i] v; discriminate.
  - inversion Hall as [|? ? Hnow Hrest]; subst.
    cbn [map rateLimitAll].
    rewrite (rateLimit_within st ip now c R Hsome Hnow).
    specialize (IH (rateSet st ip (mkEntry (c + 1) R)) (c + 1) R
                   (rateSet_same _ _ _) Hrest).
    destruct (rateLimitAll _ (map (pair ip) times)) as [st2 vs].
    cbn [fst snd length] in *.
    destruct IH as (Hfinal & Hlen & Hnth).
    split; [rewrite Hfinal; f_equal; f_equal; lia|].
    split; [now rewrite Hlen|].
    intros [|i] v; cbn [nth_error].
    + intros E; injection E as <-.
      unfold RATE_MAX; destruct (c + 1 >? 30) eqn:Egt.
      * apply Z.gtb_lt in Egt; split; [discriminate | lia].
      * rewrite Z.gtb_ltb in Egt; apply Z.ltb_ge in Egt; split; [lia | reflexivity].
    + intros E; rewrite (Hnth i v E); lia.
Qed.

(** X1.  A request that opens a window (the client is unknown, or its
    window is over) is let through, and of the requests the same client
    sends until the window closes - arriving no later than
    [RATE_WINDOW_MS] after the first, in any order - exactly the first 29
    are let through as well: request number [i] of the window, counted from
    0, gets [next()] if [i < 30] and the 429 answer otherwise.  Refused
    requests are counted too: the entry ends at the number of requests
    made. *)
Theorem rate_limit_budget (st : rateState) (ip : string) (t0 : Z) (times : list Z) :
  opensWindow st ip t0 ->
  Forall (fun now => now <= t0 + RATE_WINDOW_MS) times ->
  let result := rateLimitAll st (map (pair ip) (t0 :: times)) in
  length (snd result) = S (length times)
  /\ (forall i v, nth_error (snd result) i = Some v ->
                  (v = Next <-> (i < 30)%nat))
  /\ fst result ip
     = Some (mkEntry (1 + Z.of_nat (length times)) (t0 + RATE_WINDOW_MS)).
Proof.
  intros Hopen Hall; cbn zeta; cbn [map rateLimitAll].
  rewrite (rateLimit_opens st ip t0 Hopen).
  destruct (rateLimitAll_within ip times
              (rateSet st ip (mkEntry 1 (t0 + RATE_WINDOW_MS))) 1
              (t0 + RATE_WINDOW_MS) (rateSet_same _ _ _) Hall)
    as (Hfinal & Hlen & Hnth).
  destruct (rateLimitAll _ (map (pair ip) times)) as [st2 vs].
  cbn [fst snd length] in *.
  split; [now rewrite Hlen|split; [|exact Hfinal]].
  intros [|i] v; cbn [nth_error].
  - intros E; injection E as <-; split; [lia | reflexivity].
  - intros E; rewrite (Hnth i v E); unfold RATE_MAX; lia.
Qed.

Lemma rate_limit_budget_witness :
  let result :=
    rateLimitAll emptyRateState (map (pair "10.0.0.1") (0 :: [5; 60000; 1])) in
  length (snd result) = 4%nat
  /\ (forall i v, nth_error (snd result) i = Some v ->
                  (v = Next <-> (i < 30)%nat))
  /\ fst result "10.0.0.1" = Some (mkEntry (1 + 3) (0 + RATE_WINDOW_MS)).
Proof.
  apply (rate_limit_budget emptyRateState "10.0.0.1" 0 [5; 60000; 1]).
  - left; reflexivity.
  - unfold RATE_WINDOW_MS; repeat constructor; lia.
Defined.

Lemma rateLimit_depends_on_entry st st' ip now :
  st ip = st' ip ->
  snd (rateLimit st ip now) = snd (rateLimit st' ip now)
  /\ fst (rateLimit st ip now) ip = fst (rateLimit st' ip now) ip.
Proof.
  intros E; unfold rateLimit; rewrite E; cbn [fst snd].
  now rewrite !rateSet_same.
Qed.

Lemma rateLimitAll_isolated ip requests : forall st st',
  st ip = st' ip ->
  verdictsFor ip requests (snd (rateLimitAll st requests))
  = snd (rateLimitAll st'
           (filter (fun r => String.eqb (fst r) ip) requests))
  /\ fst (rateLimitAll st requests) ip
     = fst (rateLimitAll st'
              (filter (fun r => String.eqb (fst r) ip) requests)) ip.
Proof.
  induction requests as [|[client now] requests IH]; intros st st' E.
  - cbn; auto.
  - cbn [rateLimitAll filter fst].
    destruct (String.eqb client ip) eqn:Hclient.
    + apply String.eqb_eq in Hclient; subst client.
      cbn [rateLimitAll].
      destruct (rateLimit_depends_on_entry st st' ip now E) as (Hv & Hst).
      destruct (rateLimit st ip now) as [st1 v], (rateLimit st' ip now) as [st1' v'].
      cbn [fst snd] in Hv, Hst; subst v'.
      specialize (IH st1 st1' Hst).
      destruct (rateLimitAll st1 requests) as [st2 vs],
               (rateLimitAll st1' _) as [st2' vs'].
      cbn [fst snd] in *.
      unfold verdictsFor in *; cbn [combine filter fst snd map].
      rewrite String.eqb_refl; cbn [map snd].
      destruct IH as (-> & ->); auto.
    + assert (Hkeep : fst (rateLimit st client now) ip = st' ip).
      { unfold rateLimit; cbn [fst]; rewrite rateSet_other; [exact E|].
        intros ->; now rewrite String.eqb_refl in Hclient. }
      destruct (rateLimit st client now) as [st1 v]; cbn [fst] in Hkeep.
      specialize (IH st1 st' Hkeep).
      destruct (rateLimitAll st1 requests) as [st2 vs].
      cbn [fst snd] in *.
      unfold verdictsFor in *; cbn [combine filter fst snd map].
      now rewrite Hclient.
Qed.

Lemma rateLimitAll_keeps_entries requests : forall st key,
  st key <> None -> fst (rateLimitAll st requests) key <> None.
Proof.
  induction requests as [|[client now] requests IH]; intros st key Hsome;
    [exact Hsome|].
  cbn [rateLimitAll].
  assert (Hstep : fst (rateLimit st client now) key <> None).
  { unfold rateLimit, rateSet; cbn [fst].
    destruct (String.eqb key client); [discriminate | exact Hsome]. }
  destruct (rateLimit st client now) as [st1 v]; cbn [fst] in Hstep.
  specialize (IH st1 key Hstep).
  now destruct (rateLimitAll st1 requests).
Qed.

(** X2.  Clients do not interfere: in any sequence of requests, the
    verdicts given to one client and the entry the table ends with for it
    are those of the run in which only that client's requests are made.
    And the table never forgets: an address that has an entry keeps one,
    whatever requests follow. *)
Theorem rate_limit_isolation (st : rateState) (ip : string)
    (requests : list (string * Z)) :
  verdictsFor ip requests (snd (rateLimitAll st requests))
  = snd (rateLimitAll st (filter (fun r => String.eqb (fst r) ip) requests))
  /\ fst (rateLimitAll st requests) ip
     = fst (rateLimitAll st (filter (fun r => String.eqb (fst r) ip) requests)) ip
  /\ (forall key, st key <> None -> fst (rateLimitAll st requests) key <> None).
Proof.
  destruct (rateLimitAll_isolated ip requests st st eq_refl) as (Hv & Hst).
  split; [exact Hv|split; [exact Hst|]].
  intros key; apply rateLimitAll_keeps_entries.
Qed.

Lemma rate_limit_isolation_witness :
  fst (rateLimitAll (rateSet emptyRateState "a" (mkEntry 31 100))
                    [("b", 1); ("a", 2); ("c", 3)]) "a" <> None.
Proof.
  apply (rate_limit_isolation (rateSet emptyRateState "a" (mkEntry 31 100)) "a"
           [("b", 1); ("a", 2); ("c", 3)]).
  discriminate.
Defined.

(** ** [sanitizeFilename] *)

Section SanitizeFilename.

Import Filename.

Lemma spaced_collapseFrom s : forall b, spaced b (collapseFrom b s).
Proof.
  induction s as [|c s IH]; intros b; cbn [collapseFrom]; [exact I|].
  destruct (isWhiteSpace c) eqn:Hc.
  - destruct b; [apply IH|].
    cbn [spaced]; change (isWhiteSpace space) with true; cbv iota.
    repeat split; apply IH.
  - cbn [spaced]; rewrite Hc; apply IH.
Qed.

Lemma spaced_weaken s : forall b, spaced b s -> spaced false s.
Proof.
  destruct s as [|c s]; intros b; cbn [spaced]; [auto|].
  destruct (isWhiteSpace c); [|auto].
  intros (Hc & _ & Hs); auto.
Qed.

Lemma spaced_trimStart s : forall b, spaced b s -> spaced true (trimStart s).
Proof.
  induction s as [|c s IH]; intros b; cbn [spaced trimStart]; [auto|].
  destruct (isWhiteSpace c) eqn:Hc.
  - intros (_ & _ & Hs); now apply IH with true.
  - intros Hs; cbn [spaced]; now rewrite Hc.
Qed.

Lemma spaced_prefix s t : forall b, spaced b (s ++ t) -> spaced b s.
Proof.
  induction s as [|c s IH]; intros b; cbn [app spaced]; [auto|].
  destruct (isWhiteSpace c).
  - intros (Hc & Hb & Hs); repeat split; auto; now apply IH.
  - apply IH.
Qed.

Lemma trimStart_suffix s :
  exists t, s = t ++ trimStart s /\ Forall (fun c => isWhiteSpace c = true) t.
Proof.
  induction s as [|c s (t & E & Ht)]; cbn [trimStart].
  - exists []; auto.
  - destruct (isWhiteSpace c) eqn:Hc.
    + exists (c :: t); split; [cbn; now f_equal | now constructor].
    + exists []; auto.
Qed.

Lemma trimStart_head s c q : trimStart s = c :: q -> isWhiteSpace c = false.
Proof.
  induction s as [|d s IH]; cbn [trimStart]; [discriminate|].
  destruct (isWhiteSpace d) eqn:Hd; [exact IH|].
  intros E; injection E as <- _; exact Hd.
Qed.

Lemma trimEnd_prefix s :
  exists t, s = trimEnd s ++ t /\ Forall (fun c => isWhiteSpace c = true) t.
Proof.
  unfold trimEnd.
  destruct (trimStart_suffix (rev s)) as (t & E & Ht).
  exists (rev t); split.
  - rewrite <- rev_app_distr, <- E; now rewrite rev_involutive.
  - apply Forall_forall; intros c Hc; apply in_rev in Hc.
    rewrite Forall_forall in Ht; now apply Ht.
Qed.

Lemma trimEnd_last s p c : trimEnd s = p ++ [c] -> isWhiteSpace c = false.
Proof.
  unfold trimEnd; intros E.
  apply (f_equal (@rev N)) in E.
  rewrite rev_involutive, rev_app_distr in E; cbn in E.
  now apply trimStart_head in E.
Qed.

Lemma trimEnd_keeps_head s c q :
  trimEnd s = c :: q -> exists q', s = c :: q'.
Proof.
  destruct (trimEnd_prefix s) as (t & E & _); intros Ec.
  rewrite Ec in E; cbn in E; eauto.
Qed.

Lemma Forall_collapseFrom (P : N -> Prop) s : forall b,
  P space -> Forall P s -> Forall P (collapseFrom b s).
Proof.
  induction s as [|c s IH]; intros b Hsp Hs; cbn [collapseFrom]; [constructor|].
  inversion Hs as [|? ? Hc Hs']; subst.
  destruct (isWhiteSpace c); [destruct b|]; try constructor; auto.
Qed.

Lemma Forall_trim (P : N -> Prop) s : Forall P s -> Forall P (trim s).
Proof.
  intros Hs; unfold trim.
  destruct (trimStart_suffix s) as (t & E & _).
  destruct (trimEnd_prefix (trimStart s)) as (t' & E' & _).
  rewrite E, E' in Hs.
  apply Forall_app in Hs; destruct Hs as [_ Hs].
  now apply Forall_app in Hs.
Qed.

Lemma spaced_trim s b : spaced b s -> spaced true (trim s).
Proof.
  intros Hs; unfold trim.
  apply spaced_trimStart in Hs.
  destruct (trimEnd_prefix (trimStart s)) as (t & E & _).
  rewrite E in Hs; now apply spaced_prefix in Hs.
Qed.

(** What the scan says, spelled out. *)
Lemma spaced_reading s : forall b,
  spaced b s ->
  Forall (fun c => isWhiteSpace c = true -> c = space) s
  /\ (forall p c d q, s = p ++ c :: d :: q ->
                     isWhiteSpace c = true -> isWhiteSpace d = false)
  /\ (b = true -> forall c q, s = c :: q -> isWhiteSpace c = false).
Proof.
  induction s as [|c s IH]; intros b; cbn [spaced].
  - intros _; split; [constructor|split].
    + intros [|? p] ? ? ? E; discriminate.
    + intros _ ? ? E; discriminate.
  - destruct (isWhiteSpace c) eqn:Hc.
    + intros (-> & -> & Hs).
      destruct (IH true Hs) as (Hall & Hadj & Hhead).
      split; [constructor; auto|split].
      * intros [|x p] c' d q E Hc'; injection E as <- E.
        -- apply (Hhead eq_refl d q E).
        -- now apply (Hadj p c' d q E).
      * discriminate.
    + intros Hs.
      destruct (IH false Hs) as (Hall & Hadj & _).
      split; [constructor; [congruence | exact Hall]|split].
      * intros [|x p] c' d q E Hc'; injection E as <- E.
        -- congruence.
        -- now apply (Hadj p c' d q E).
      * intros _ c' q E; injection E as <- _; exact Hc.
Qed.

Lemma reading_spaced s : forall b,
  Forall (fun c => isWhiteSpace c = true -> c = space) s ->
  (forall p c d q, s = p ++ c :: d :: q ->
                   isWhiteSpace c = true -> isWhiteSpace d = false) ->
  (b = true -> forall c q, s = c :: q -> isWhiteSpace c = false) ->
  spaced b s.
Proof.
  induction s as [|c s IH]; intros b Hall Hadj Hhead; cbn [spaced]; [exact I|].
  inversion Hall as [|? ? Hc Hall']; subst.
  assert (Hadj' : forall p c0 d q, s = p ++ c0 :: d :: q ->
                                   isWhiteSpace c0 = true -> isWhiteSpace d = false).
  { intros p c0 d q E; apply (Hadj (c :: p) c0 d q); cbn; now f_equal. }
  destruct (isWhiteSpace c) eqn:Hws.
  - split; [now apply Hc|split].
    + destruct b; [|reflexivity].
      specialize (Hhead eq_refl c s eq_refl); congruence.
    + apply IH; auto.
      intros _ d q E; subst s; now apply (Hadj [] c d q eq_refl).
  - apply IH; auto; discriminate.
Qed.

Lemma collapseFrom_spaced s : forall b, spaced b s -> collapseFrom b s = s.
Proof.
  induction s as [|c s IH]; intros b; cbn [spaced collapseFrom]; [reflexivity|].
  destruct (isWhiteSpace c).
  - intros (-> & -> & Hs); now rewrite (IH true Hs).
  - intros Hs; now rewrite (IH false Hs).
Qed.

Lemma trimStart_fixed s :
  (forall c q, s = c :: q -> isWhiteSpace c = false) -> trimStart s = s.
Proof.
  destruct s as [|c s]; [reflexivity|]; intros Hhead; cbn [trimStart].
  now rewrite (Hhead c s eq_refl).
Qed.

Lemma trimEnd_fixed s :
  (forall p c, s = p ++ [c] -> isWhiteSpace c = false) -> trimEnd s = s.
Proof.
  intros Hlast; unfold trimEnd.
  rewrite trimStart_fixed; [apply rev_involutive|].
  intros c q E; apply (Hlast (rev q) c).
  rewrite <- (rev_involutive s), E; reflexivity.
Qed.

Lemma sanitizeFilename_tidy name : tidy (sanitizeFilename name).
Proof.
  unfold sanitizeFilename, collapseWhiteSpace.
  set (t := collapseFrom false (removeForbidden name)).
  assert (Hsp : spaced true (trim t)) by (apply spaced_trim with false, spaced_collapseFrom).
  destruct (spaced_reading _ _ Hsp) as (Hall & Hadj & Hhead).
  split; [|split; [exact Hall|split; [exact Hadj|split; [now apply Hhead|]]]].
  - apply Forall_trim, Forall_collapseFrom; [reflexivity|].
    apply Forall_forall; intros c Hc.
    apply filter_In in Hc; destruct Hc as [_ Hc]; now apply negb_true_iff in Hc.
  - unfold trim; apply trimEnd_last.
Qed.

Lemma sanitizeFilename_fixed name : tidy name -> sanitizeFilename name = name.
Proof.
  intros (Hforb & Hall & Hadj & Hhead & Hlast).
  unfold sanitizeFilename, collapseWhiteSpace, removeForbidden, trim.
  assert (E1 : filter (fun c => negb (isForbidden c)) name = name).
  { apply forallb_filter_id, forallb_forall; intros c Hc.
    rewrite Forall_forall in Hforb; now rewrite (Hforb c Hc). }
  rewrite E1.
  rewrite (collapseFrom_spaced name false).
  2:{ apply reading_spaced; auto; discriminate. }
  rewrite (trimStart_fixed name Hhead); now apply trimEnd_fixed.
Qed.

End SanitizeFilename.

(** X3.  Whatever the name, the sanitized name is tidy: it holds none of
    the nine forbidden characters (so no path separator and no double
    quote), and its only white space is single space characters, none of
    them first, last or next to another. *)
Theorem sanitized_name_is_tidy (name : Filename.jsString) :
  Filename.tidy (Filename.sanitizeFilename name).
Proof. apply sanitizeFilename_tidy. Qed.

(** X4.  [sanitizeFilename] leaves a tidy name as it is; hence
    sanitizing twice is sanitizing once. *)
Theorem sanitize_keeps_tidy_names :
  (forall name, Filename.tidy name -> Filename.sanitizeFilename name = name)
  /\ (forall name,
        Filename.sanitizeFilename (Filename.sanitizeFilename name)
        = Filename.sanitizeFilename name).
Proof.
  split; [exact sanitizeFilename_fixed|].
  intros name; apply sanitizeFilename_fixed, sanitizeFilename_tidy.
Qed.

Lemma sanitize_keeps_tidy_names_witness :
  Filename.sanitizeFilename [97; 32; 98]%N = [97; 32; 98]%N.
Proof.
  apply (proj1 sanitize_keeps_tidy_names [97; 32; 98]%N).
  unfold Filename.tidy; repeat split.
  - repeat constructor.
  - repeat constructor; cbn; discriminate.
  - intros [|? [|? [|? p]]] c d q E; try discriminate;
      injection E as <- <- ?; subst; try reflexivity; cbn; try discriminate.
    all: try (destruct p; discriminate).
  - intros c q E; injection E as <- _; reflexivity.
  - intros [|? [|? [|? p]]] c E; try discriminate.
    + injection E as _ _ <-; reflexivity.
    + destruct p; discriminate.
Defined.

(** ** The route, call by call *)

(** How a request that is answered was answered: by one of the early
    exits, or by the [try] statement. *)
Lemma apiMedia_Responded H Y req fault r :
  apiMedia H Y req fault = Responded r ->
  (exists code error, r = run [Status code; Json (ErrorJson error)] noResources
                      /\ In code [400; 403; 409; 410; 500])
  \/ (exists url info sel,
        query_url req = Some url /\ getInfo Y url = Normal info
        /\ pickFormat H Y info (typeOf req) (qualityOf req) (useFfmpegOf req) = Normal sel
        /\ noViableFormat sel = false
        /\ r = runTry (tryBlockOf H req info sel) fault noResources).
Proof.
  unfold apiMedia.
  destruct (query_url req) as [url|].
  2:{ intros E; injection E as <-; left; eexists _, _; split; [reflexivity|].
      simpl; auto. }
  destruct (_ || _).
  { intros E; injection E as <-; left; eexists _, _; split; [reflexivity|].
    simpl; auto. }
  destruct (getInfo Y url) as [info|err] eqn:Hinfo.
  2:{ intros E; injection E as <-; left; eexists _, _; split; [reflexivity|].
      pose proof (mapped_status_values err) as HIn; simpl in HIn |- *; tauto. }
  fold (typeOf req) (qualityOf req) (useFfmpegOf req).
  destruct (pickFormat H Y info _ _ _) as [sel|err] eqn:Hpick; [|discriminate].
  fold (noViableFormat sel).
  destruct (noViableFormat sel) eqn:Hviable.
  { intros E; injection E as <-; left; eexists _, _; split; [reflexivity|].
    simpl; auto. }
  intros E; injection E as <-; right.
  exists url, info, sel; repeat split; auto.
Qed.

Lemma isCatchCall_catchBlock message r a :
  In a (performed (catchBlock message r)) -> In a (performed r) \/ isCatchCall a.
Proof.
  unfold catchBlock; destruct (headersSent r).
  { rewrite performed_run; intros HIn.
    apply in_app_or in HIn; destruct HIn as [HIn|[<-|[]]]; [now left|].
    right; left; eauto. }
  rewrite performed_cleanup, performed_run.
  intros HIn; repeat (apply in_app_or in HIn; destruct HIn as [HIn|HIn]).
  - now left.
  - right; destruct HIn as [<-|[<-|[]]]; [left | right; left]; eauto.
  - right; apply in_map_iff in HIn; destruct HIn as (s & <- & _).
    right; right; left; eauto.
  - right; destruct (ffmpegProcess _); cbn [killIfRunning] in HIn;
      [destruct HIn as [<-|[]] | destruct HIn].
    right; right; right; eauto.
Qed.

(** A call the [try] statement makes is a call of the block or a call of
    the [catch] block. *)
Lemma runTry_calls acts own fault a :
  In a (performed (runTry (acts, own) fault noResources)) ->
  In a acts \/ isCatchCall a.
Proof.
  unfold runTry.
  assert (Hcomplete :
            In a (performed match own with
                            | None => run acts noResources
                            | Some message => catchBlock message (run acts noResources)
                            end) -> In a acts \/ isCatchCall a).
  { destruct own as [message|].
    - intros HIn; apply isCatchCall_catchBlock in HIn.
      rewrite performed_run in HIn; cbn in HIn; exact HIn.
    - rewrite performed_run; cbn; auto. }
  destruct fault as [[k message]|]; [|exact Hcomplete].
  destruct (Nat.ltb k (length acts)).
  - intros HIn; apply isCatchCall_catchBlock in HIn.
    rewrite performed_run in HIn; cbn in HIn.
    destruct HIn as [HIn|HIn]; [left | now right].
    rewrite <- (firstn_skipn k acts); apply in_or_app; now left.
  - destruct (Nat.eqb k (length acts) && endsInPipelineToRes acts);
      [|exact Hcomplete].
    intros HIn; apply isCatchCall_catchBlock in HIn.
    rewrite performed_run in HIn; cbn in HIn; exact HIn.
Qed.

(** The calls of an answered request: those of an early exit, of the
    [try] block of the selection, or of the [catch] block. *)
Lemma apiMedia_calls H Y req fault r a :
  apiMedia H Y req fault = Responded r -> In a (performed r) ->
  (exists code, a = Status code /\ In code [400; 403; 409; 410; 500])
  \/ (exists error, a = Json (ErrorJson error))
  \/ isCatchCall a
  \/ (exists url info sel,
        query_url req = Some url /\ getInfo Y url = Normal info
        /\ pickFormat H Y info (typeOf req) (qualityOf req) (useFfmpegOf req) = Normal sel
        /\ noViableFormat sel = false
        /\ In a (fst (tryBlockOf H req info sel))).
Proof.
  intros Hres HIn.
  destruct (apiMedia_Responded H Y req fault r Hres)
    as [(code & error & -> & Hcode)|(url & info & sel & Hurl & Hinfo & Hpick & Hv & ->)].
  - cbn in HIn; destruct HIn as [<-|[<-|[]]]; [left | right; left]; eauto.
  - destruct (tryBlockOf H req info sel) as [acts own] eqn:Hblock.
    apply runTry_calls in HIn; destruct HIn as [HIn|HIn]; [|now right; right; left].
    right; right; right; exists url, info, sel; rewrite Hblock; auto.
Qed.

(** The calls of a [try] block, branch by branch. *)
Ltac tryBlock_calls HIn :=
  unfold tryBlockOf, tryBlock, saveToDisk in HIn;
  repeat match type of HIn with
         | context [if ?b then _ else _] => destruct b eqn:?
         | context [match ?x with _ => _ end] => destruct x eqn:?
         end;
  cbn [fst app In] in HIn.

(** X5.  The only statuses the handler ever sets are 206, 400, 403, 409,
    410 and 500, on every path, the [catch] block included. *)
Theorem handler_status_codes (H : Host) (Y : Ytdl) (req : request)
    (fault : option (nat * string)) (r : resources) (code : Z) :
  apiMedia H Y req fault = Responded r ->
  In (Status code) (performed r) ->
  In code [206; 400; 403; 409; 410; 500].
Proof.
  intros Hres HIn.
  destruct (apiMedia_calls H Y req fault r _ Hres HIn)
    as [(c & E & Hc)|[(body & E)|[Hcatch|(url & info & sel & _ & _ & _ & _ & Hblock)]]].
  - injection E as ->; simpl in Hc |- *; tauto.
  - discriminate.
  - destruct Hcatch as [(m & E)|[(m & E)|[(s & E)|(j & E)]]]; try discriminate.
    injection E as ->.
    pose proof (mapped_status_values m) as Hm; simpl in Hm |- *; tauto.
  - tryBlock_calls Hblock;
      repeat (destruct Hblock as [Hblock|Hblock]; [try discriminate|]);
      try contradiction;
      injection Hblock as <-; simpl; tauto.
Qed.

Lemma handler_status_codes_witness :
  In 206 [206; 400; 403; 409; 410; 500].
Proof.
  apply (handler_status_codes plainHost (specYtdl muxedInfo)
           (getRequest "video" "lowest" "false" (Some "bytes=10-")) None
           _ 206 eq_refl).
  cbv; tauto.
Defined.

Ltac bool_facts :=
  repeat match goal with
         | Hb : (_ && _)%bool = true |- _ => apply andb_prop in Hb; destruct Hb
         | Hb : String.eqb _ _ = true |- _ => apply String.eqb_eq in Hb
         | Hb : String.eqb _ _ = false |- _ => apply String.eqb_neq in Hb
         | Hb : negb _ = true |- _ => apply negb_true_iff in Hb
         | Hb : negb _ = false |- _ => apply negb_false_iff in Hb
         end.

Ltac members HIn :=
  repeat (destruct HIn as [HIn|HIn]; [try discriminate|]); try contradiction.

(** X6.  ffmpeg is spawned only for a request that enables it
    ([enableFfmpeg] is [true] or [1]); the MP3 encoder only for an audio
    request, the muxer only for the others. *)
Theorem ffmpeg_only_when_enabled (H : Host) (Y : Ytdl) (req : request)
    (fault : option (nat * string)) (r : resources) (job : ffmpegJob) :
  apiMedia H Y req fault = Responded r ->
  In (Spawn job) (performed r) ->
  useFfmpegOf req = true
  /\ (job = EncodeMp3 <-> typeOf req = "audio").
Proof.
  intros Hres HIn.
  destruct (apiMedia_calls H Y req fault r _ Hres HIn)
    as [(c & E & Hc)|[(body & E)|[Hcatch|(url & info & sel & _ & _ & _ & _ & Hblock)]]];
    try discriminate.
  - destruct Hcatch as [(m & E)|[(m & E)|[(s & E)|(j & E)]]]; discriminate.
  - tryBlock_calls Hblock; members Hblock.
    all: injection Hblock as <-; bool_facts.
    all: split; [auto|split; intros; congruence || auto].
Qed.

Lemma ffmpeg_only_when_enabled_witness :
  useFfmpegOf (getRequest "video" "lowest" "1" None) = true
  /\ (MuxCopy = EncodeMp3 <-> typeOf (getRequest "video" "lowest" "1" None) = "audio").
Proof.
  apply (ffmpeg_only_when_enabled plainHost (specYtdl splitInfo)
           (getRequest "video" "lowest" "1" None) None _ MuxCopy eq_refl).
  cbv; tauto.
Defined.

(** A call that the early exits and the [catch] block never make, found
    among the calls of a request, is a call of its [try] block. *)
Ltac in_try_block Hres HIn Hblock :=
  let c := fresh in let E := fresh in let Hc := fresh in
  match type of HIn with
  | In ?a _ =>
      destruct (apiMedia_calls _ _ _ _ _ a Hres HIn)
        as [(c & E & Hc)|[(c & E)|[Hc|(? & ? & ? & _ & _ & _ & _ & Hblock)]]];
      [ discriminate E
      | discriminate E
      | destruct Hc as [(c & E)|[(c & E)|[(c & E)|(c & E)]]]; discriminate E
      | ]
  end.

(** X7.  The two delivery targets do not mix.  A request saved to disk
    ([mode=download] with [downloadTarget=disk]) sets no response header
    and pipes nothing to the response; any other request creates no
    directory, writes no file and never answers with the saved-file
    JSON. *)
Theorem delivery_targets_do_not_mix (H : Host) (Y : Ytdl) (req : request)
    (fault : option (nat * string)) (r : resources) :
  apiMedia H Y req fault = Responded r ->
  (isDiskOf req = true ->
   (forall name value, ~ In (SetHeader name value) (performed r))
   /\ (forall src, ~ In (PipelineToRes src) (performed r)))
  /\ (isDiskOf req = false ->
      (forall dir, ~ In (Mkdir dir) (performed r))
      /\ (forall src path, ~ In (PipelineToFile src path) (performed r))
      /\ (forall path, ~ In (Stat path) (performed r))
      /\ (forall name path, ~ In (Json (SavedJson name path)) (performed r))).
Proof.
  intros Hres; split; intros Hdisk; repeat split; intros; intros HIn;
    in_try_block Hres HIn Hblock;
    tryBlock_calls Hblock; members Hblock; congruence.
Qed.

Lemma delivery_targets_do_not_mix_witness :
  (forall name value,
     ~ In (SetHeader name value)
          (performed
             (runTry (tryBlockOf plainHost
                        (mkRequest (Some "u") (Some "download") (Some "audio") None
                                   (Some "disk") None None None)
                        splitInfo (Chosen (Some fmtAudio128) false))
                     None noResources)))
  /\ (forall src,
        ~ In (PipelineToRes src)
             (performed
                (runTry (tryBlockOf plainHost
                           (mkRequest (Some "u") (Some "download") (Some "audio") None
                                      (Some "disk") None None None)
                           splitInfo (Chosen (Some fmtAudio128) false))
                        None noResources))).
Proof.
  exact (proj1 (delivery_targets_do_not_mix plainHost (specYtdl splitInfo)
                  (mkRequest (Some "u") (Some "download") (Some "audio") None
                             (Some "disk") None None None)
                  None _ eq_refl) eq_refl).
Defined.

(** ** Suffixes *)

Lemma endsWith_unfold s suffix :
  endsWith s suffix
  = if String.eqb s suffix then true
    else match s with
         | String _ s' => endsWith s' suffix
         | EmptyString => false
         end.
Proof. destruct s; reflexivity. Qed.

Lemma endsWith_iff s suffix :
  endsWith s suffix = true <-> exists p, s = (p ++ suffix)%string.
Proof.
  split.
  - induction s as [|c s IH]; rewrite endsWith_unfold.
    + destruct (String.eqb_spec EmptyString suffix) as [<-|]; [|discriminate].
      intros _; exists EmptyString; reflexivity.
    + destruct (String.eqb_spec (String c s) suffix) as [<-|].
      * intros _; exists EmptyString; reflexivity.
      * intros E; destruct (IH E) as (p & ->).
        exists (String c p); reflexivity.
  - intros (p & ->); induction p as [|c p IH]; rewrite endsWith_unfold.
    + cbn [append]; now rewrite String.eqb_refl.
    + cbn [append]; rewrite IH; now destruct (String.eqb _ _).
Qed.

Lemma append_assoc (a b c : string) : ((a ++ b) ++ c = a ++ b ++ c)%string.
Proof. induction a as [|x a IH]; cbn [append]; [reflexivity | now rewrite IH]. Qed.

Lemma append_eq_append (a : string) : forall b c d,
  (a ++ b = c ++ d)%string ->
  exists l, (a = c ++ l /\ d = l ++ b)%string \/ (c = a ++ l /\ b = l ++ d)%string.
Proof.
  induction a as [|x a IH]; intros b c d E; cbn [append] in E.
  - exists c; right; auto.
  - destruct c as [|y c]; cbn [append] in E.
    + exists (String x a); left; auto.
    + injection E as <- E.
      destruct (IH b c d E) as (l & [(-> & ->)|(-> & ->)]); exists l; auto.
Qed.

(** The name of the response always carries the extension. *)
Lemma responseFilenameOf_suffix defaultName ext :
  exists p, responseFilenameOf defaultName ext = (p ++ "." ++ ext)%string.
Proof.
  unfold responseFilenameOf.
  destruct (endsWith defaultName ("." ++ ext)) eqn:E.
  - apply endsWith_iff in E; exact E.
  - exists defaultName; reflexivity.
Qed.

Lemma mp3_suffix p q ext :
  (p ++ "." ++ ext = q ++ ".mp3")%string ->
  ext = "mp3" \/ exists p', ext = (p' ++ ".mp3")%string.
Proof.
  intros E; apply append_eq_append in E.
  destruct E as (l & [(_ & E)|(_ & E)]).
  - left.
    destruct l as [|c1 l]; cbn [append] in E; [now injection E as <-|].
    injection E as _ E.
    do 3 (destruct l as [|? l]; cbn [append] in E; [discriminate|injection E as _ E]).
    destruct l; discriminate.
  - destruct l as [|c1 l]; cbn [append] in E.
    + left; now injection E as ->.
    + right; injection E as _ ->; eauto.
Qed.

Lemma pickFormat_audio_format H Y info quality useFfmpeg sel :
  pickFormat H Y info "audio" quality useFfmpeg = Normal sel ->
  sel = Chosen (sel_format sel) false.
Proof.
  unfold pickFormat; simpl String.eqb; cbv iota.
  destruct (chooseFormat Y _ _); simpl; [|discriminate].
  intros E; injection E as <-; reflexivity.
Qed.

(** X8.  The MP3 encoder runs only for an audio request that enables
    ffmpeg and whose selected format has a container that is [mp3] or
    ends in [.mp3]: the name of the response always ends in the
    container's extension, so a [filename] ending in [.mp3] does not by
    itself start the encoder. *)
Theorem mp3_encoder_needs_mp3_container (H : Host) (Y : Ytdl) (req : request)
    (fault : option (nat * string)) (r : resources) :
  apiMedia H Y req fault = Responded r ->
  In (Spawn EncodeMp3) (performed r) ->
  exists url info format c,
    query_url req = Some url /\ getInfo Y url = Normal info
    /\ pickFormat H Y info "audio" (qualityOf req) true
       = Normal (Chosen (Some format) false)
    /\ container format = Some c
    /\ (c = "mp3" \/ exists p, c = (p ++ ".mp3")%string).
Proof.
  intros Hres HIn.
  destruct (apiMedia_calls H Y req fault r _ Hres HIn)
    as [(c & E & Hc)|[(body & E)|[Hcatch|(url & info & sel & Hurl & Hinfo & Hpick & _ & Hblock)]]];
    try discriminate.
  { destruct Hcatch as [(m & E)|[(m & E)|[(s & E)|(j & E)]]]; discriminate. }
  assert (Hfacts : typeOf req = "audio" /\ useFfmpegOf req = true
                   /\ endsWith (nameOf H req info sel) ".mp3" = true
                   /\ exists f, sel_format sel = Some f).
  { tryBlock_calls Hblock; members Hblock; bool_facts; eauto. }
  destruct Hfacts as (Htype & Hff & Hname & format & Hformat).
  rewrite Htype, Hff in Hpick.
  pose proof (pickFormat_audio_format _ _ _ _ _ _ Hpick) as Hsel.
  rewrite Hformat in Hsel; subst sel.
  unfold nameOf in Hname.
  apply endsWith_iff in Hname; destruct Hname as (q & Hname).
  destruct (responseFilenameOf_suffix (defaultNameOf H info (query_filename req))
              (extensionOf (typeOf req) (Chosen (Some format) false))) as (p & Hp).
  rewrite Hp in Hname; apply mp3_suffix in Hname.
  unfold extensionOf in Hname; cbn [sel_format] in Hname; rewrite Htype in Hname.
  simpl String.eqb in Hname; cbv iota in Hname.
  destruct (container format) as [c|] eqn:Hc.
  - destruct (truthy_string (Some c)).
    + exists url, info, format, c; cbn [orDefault] in Hname; auto.
    + exfalso; destruct Hname as [E|(p' & E)]; [discriminate|].
      do 3 (destruct p' as [|? p']; cbn [append] in E;
            [discriminate|injection E as _ E]).
      destruct p'; discriminate.
  - exfalso; cbn [truthy_string] in Hname; destruct Hname as [E|(p' & E)]; [discriminate|].
    do 3 (destruct p' as [|? p']; cbn [append] in E;
          [discriminate|injection E as _ E]).
    destruct p'; discriminate.
Qed.

Lemma mp3_encoder_needs_mp3_container_witness :
  exists url info format c,
    query_url (getRequest "audio" "highest" "true" None) = Some url
    /\ getInfo (specYtdl mp3Info) url = Normal info
    /\ pickFormat plainHost (specYtdl mp3Info) info "audio"
         (qualityOf (getRequest "audio" "highest" "true" None)) true
       = Normal (Chosen (Some format) false)
    /\ container format = Some c
    /\ (c = "mp3" \/ exists p, c = (p ++ ".mp3")%string).
Proof.
  apply (mp3_encoder_needs_mp3_container plainHost (specYtdl mp3Info)
           (getRequest "audio" "highest" "true" None) None _ eq_refl).
  cbv; tauto.
Defined.

(** ** [isValidYoutubeUrl] *)

Lemma stripWww_cases hostname :
  (exists rest, hostname = String "w" (String "w" (String "w" (String "." rest)))
                /\ Url.stripWww hostname = rest)
  \/ (Url.stripWww hostname = hostname
      /\ forall rest, hostname <> String "w" (String "w" (String "w" (String "." rest)))).
Proof.
  destruct hostname as [|c1 [|c2 [|c3 [|c4 rest]]]];
    try (right; split; [reflexivity | intros rest' E; discriminate]).
  - right; split; [|discriminate].
    destruct c1 as [[] [] [] [] [] [] [] []]; reflexivity.
  - right; split; [|discriminate].
    destruct c1 as [[] [] [] [] [] [] [] []]; try reflexivity;
      destruct c2 as [[] [] [] [] [] [] [] []]; reflexivity.
  - right; split; [|discriminate].
    destruct c1 as [[] [] [] [] [] [] [] []]; try reflexivity;
      destruct c2 as [[] [] [] [] [] [] [] []]; try reflexivity;
      destruct c3 as [[] [] [] [] [] [] [] []]; reflexivity.
  - destruct (Ascii.eqb_spec c1 "w") as [->|H1].
    2:{ right; split; [|intros rest' E; injection E as E; congruence].
        destruct c1 as [[] [] [] [] [] [] [] []]; try reflexivity; congruence. }
    destruct (Ascii.eqb_spec c2 "w") as [->|H2].
    2:{ right; split; [|intros rest' E; injection E as E; congruence].
        destruct c2 as [[] [] [] [] [] [] [] []]; try reflexivity; congruence. }
    destruct (Ascii.eqb_spec c3 "w") as [->|H3].
    2:{ right; split; [|intros rest' E; injection E as E; congruence].
        destruct c3 as [[] [] [] [] [] [] [] []]; try reflexivity; congruence. }
    destruct (Ascii.eqb_spec c4 ".") as [->|H4].
    2:{ right; split; [|intros rest' E; injection E as E; congruence].
        destruct c4 as [[] [] [] [] [] [] [] []]; try reflexivity; congruence. }
    left; exists rest; auto.
Qed.

(** X9.  [isValidYoutubeUrl] accepts a value exactly when the URL
    constructor accepts it and its host name is [youtube.com],
    [youtu.be], [www.youtu.be] or ends in [.youtube.com]; in particular a
    value the constructor rejects is refused, not an error. *)
Theorem youtube_hosts (hostnameOf : string -> option string) (value : string) :
  Url.isValidYoutubeUrl hostnameOf value = true
  <-> exists hostname,
        hostnameOf value = Some hostname
        /\ (hostname = "youtube.com" \/ hostname = "youtu.be"
            \/ hostname = "www.youtu.be"
            \/ exists p, hostname = (p ++ ".youtube.com")%string).
Proof.
  unfold Url.isValidYoutubeUrl.
  destruct (hostnameOf value) as [hostname|].
  2:{ split; [discriminate | intros (h & E & _); discriminate]. }
  cbv zeta.
  destruct (stripWww_cases hostname) as [(rest & -> & ->)|(-> & Hnot)].
  - split.
    + intros Hok; eexists; split; [reflexivity|].
      apply orb_prop in Hok; destruct Hok as [Hok|Hok];
        [apply orb_prop in Hok; destruct Hok as [Hok|Hok]|].
      * apply String.eqb_eq in Hok; subst rest.
        right; right; right; exists "www"; reflexivity.
      * apply String.eqb_eq in Hok; subst rest; auto.
      * apply endsWith_iff in Hok; destruct Hok as (p & ->).
        right; right; right; exists ("www." ++ p)%string; reflexivity.
    + intros (h & E & Hh); injection E as <-.
      destruct Hh as [E|[E|[E|(p & E)]]]; try discriminate.
      * injection E as ->; reflexivity.
      * do 3 (destruct p as [|? p]; cbn [append] in E;
              [discriminate|injection E as _ E]).
        destruct p as [|? p]; cbn [append] in E.
        -- injection E as ->; reflexivity.
        -- injection E as _ ->.
           apply orb_true_iff; right; apply endsWith_iff; eauto.
  - split.
    + intros Hok; eexists; split; [reflexivity|].
      apply orb_prop in Hok; destruct Hok as [Hok|Hok];
        [apply orb_prop in Hok; destruct Hok as [Hok|Hok]|].
      * apply String.eqb_eq in Hok; auto.
      * apply String.eqb_eq in Hok; auto.
      * apply endsWith_iff in Hok; auto.
    + intros (h & E & Hh); injection E as <-.
      destruct Hh as [->|[->|[->|Hp]]]; try reflexivity.
      * now elim (Hnot "youtu.be").
      * apply endsWith_iff in Hp; rewrite Hp; apply orb_true_r.
Qed.

(** ** The requested quality *)

(** X10.  [parseQuality] answers ['lowest'] for the word [lowest] and for
    nothing else, and an itag only for a value that [Number] reads as a
    finite number; a request whose quality is anything else - empty,
    misspelt, not a number - is served exactly as a request for
    ['highest'], with every [chooseFormat]. *)
Theorem unparsable_quality_is_highest (H : Host) (value : string) :
  (parseQuality H value = Lowest <-> value = "lowest")
  /\ (forall id, parseQuality H value = Itag id -> Number H value = Finite id)
  /\ (value <> "lowest" ->
      (value = EmptyString \/ Number H value = NotFinite) ->
      forall Y info type enableFfmpeg,
        pickFormat H Y info type value enableFfmpeg
        = pickFormat H Y info type "highest" enableFfmpeg).
Proof.
  unfold parseQuality.
  destruct (String.eqb_spec value EmptyString) as [->|Hne].
  { split; [split; discriminate|split; [discriminate|reflexivity]]. }
  destruct (String.eqb_spec value "highest") as [->|Hnh].
  { split; [split; discriminate|split; [discriminate|reflexivity]]. }
  destruct (String.eqb_spec value "lowest") as [->|Hnl].
  { split; [split; reflexivity|split; [discriminate|congruence]]. }
  split; [|split].
  - destruct (Number H value); split; congruence.
  - intros id; destruct (Number H value); congruence.
  - intros _ [E|E]; [contradiction|].
    intros Y info type enableFfmpeg; unfold pickFormat, parseQuality.
    apply String.eqb_neq in Hne, Hnh, Hnl.
    now rewrite Hne, Hnh, Hnl, E.
Qed.

Lemma unparsable_quality_is_highest_witness :
  pickFormat plainHost (specYtdl splitInfo) splitInfo "audio" "1080p" false
  = pickFormat plainHost (specYtdl splitInfo) splitInfo "audio" "highest" false.
Proof.
  apply (proj2 (proj2 (unparsable_quality_is_highest plainHost "1080p"))).
  - discriminate.
  - right; reflexivity.
Defined.

(** ** The first range clause *)

Lemma match_literal_nonempty b x :
  match_literal bytes_literal b = Some EmptyString ->
  truthy_string (Some (b ++ x)%string) = true.
Proof. destruct b; [discriminate | reflexivity]. Qed.

(** X11.  A header that starts with [bytes=] in any letter case, then
    digits, a dash and possibly more digits, is read from that first
    clause alone: whatever follows it (more ranges, any text) is
    ignored.  Against a known, non-zero length the window starts at the
    first number and ends at the second, or at [total - 1] when there is
    none, each as a double: as [Number] reads the digits and as the
    subtraction computes.  The answer is [null] exactly when one of the
    two is not finite or the start exceeds the end.  With numbers below
    2^53 and a length up to 2^53 the doubles are the numbers written. *)
Theorem first_range_clause_decides (b d1 d2 rest : string) (total : Z) :
  match_literal bytes_literal b = Some EmptyString ->
  d1 <> EmptyString -> allDigits d1 = true -> allDigits d2 = true ->
  match rest with String c _ => isDigit c = false | EmptyString => True end ->
  total <> 0 ->
  parseRangeHeader (Some (b ++ d1 ++ "-" ++ d2 ++ rest)%string) (Some total)
  = match NumberOfDigits d1,
          match d2 with
          | EmptyString => difference total 1
          | _ => NumberOfDigits d2
          end
    with
    | Whole first, Whole last =>
        if first >? last then None else Some (mkRange first last)
    | _, _ => None
    end
  /\ (digitsValue 0 d1 < MAX_EXACT -> digitsValue 0 d2 < MAX_EXACT ->
      0 < total <= MAX_EXACT ->
      parseRangeHeader (Some (b ++ d1 ++ "-" ++ d2 ++ rest)%string) (Some total)
      = (let first := digitsValue 0 d1 in
         let last := match d2 with
                     | EmptyString => total - 1
                     | _ => digitsValue 0 d2
                     end in
         if first >? last then None else Some (mkRange first last))).
Proof.
  intros Hb Hne Hd1 Hd2 Hrest Htotal.
  assert (Hparse :
            parseRangeHeader (Some (b ++ d1 ++ "-" ++ d2 ++ rest)%string) (Some total)
            = match NumberOfDigits d1,
                    match d2 with
                    | EmptyString => difference total 1
                    | _ => NumberOfDigits d2
                    end
              with
              | Whole first, Whole last =>
                  if first >? last then None else Some (mkRange first last)
              | _, _ => None
              end).
  { unfold parseRangeHeader.
    rewrite (match_literal_nonempty b _ Hb).
    assert (Ht : truthy_number (Some total) = true)
      by (destruct total; simpl; congruence).
    rewrite Ht; cbn [negb orb].
    rewrite regex_exec_unfold, (match_here_complete b d1 (d2 ++ rest) Hb Hne Hd1).
    rewrite (span_digits_app d2 rest Hd2 Hrest); cbn [fst].
    replace (if truthy_string (Some d2) then NumberOfDigits d2 else difference total 1)
      with (match d2 with
            | EmptyString => difference total 1
            | _ => NumberOfDigits d2
            end) by now destruct d2.
    destruct (NumberOfDigits d1) as [first|]; [|reflexivity].
    destruct (match d2 with
              | EmptyString => difference total 1
              | _ => NumberOfDigits d2
              end) as [last|]; [|reflexivity].
    cbn [isFinite exceeds negb orb]; reflexivity. }
  split; [exact Hparse|].
  intros H1 H2 Hsafe; rewrite Hparse.
  rewrite (NumberOfDigits_exact d1 Hd1 H1).
  destruct d2 as [|c d2].
  - unfold difference; rewrite (toDouble_exact (total - 1)) by lia; reflexivity.
  - rewrite (NumberOfDigits_exact _ Hd2 H2); reflexivity.
Qed.

Lemma first_range_clause_decides_witness :
  parseRangeHeader (Some ("Bytes=" ++ "0" ++ "-" ++ "499" ++ ",600-700")%string)
                   (Some 1000)
  = (let first := digitsValue 0 "0" in
     let last := digitsValue 0 "499" in
     if first >? last then None else Some (mkRange first last)).
Proof.
  apply (proj2 (first_range_clause_decides "Bytes=" "0" "499" ",600-700" 1000
                  eq_refl ltac:(discriminate) eq_refl eq_refl eq_refl
                  ltac:(discriminate)));
    vm_compute; try reflexivity; split; [reflexivity | discriminate].
Defined.

(** ** What [sanitizeFilename] keeps *)

Section SanitizeKeeps.

Import Filename.

Lemma filter_visible_trimStart s :
  filter (fun c => negb (isWhiteSpace c)) (trimStart s)
  = filter (fun c => negb (isWhiteSpace c)) s.
Proof.
  induction s as [|c s IH]; cbn [trimStart]; [reflexivity|].
  destruct (isWhiteSpace c) eqn:Hc; [|reflexivity].
  cbn [filter]; now rewrite Hc.
Qed.

Lemma filter_visible_rev s :
  filter (fun c => negb (isWhiteSpace c)) (rev s)
  = rev (filter (fun c => negb (isWhiteSpace c)) s).
Proof.
  induction s as [|c s IH]; [reflexivity|].
  cbn [rev filter]; rewrite filter_app, IH; cbn [filter].
  destruct (negb (isWhiteSpace c)); cbn [rev]; [reflexivity | now rewrite app_nil_r].
Qed.

Lemma filter_visible_trim s :
  filter (fun c => negb (isWhiteSpace c)) (trim s)
  = filter (fun c => negb (isWhiteSpace c)) s.
Proof.
  unfold trim, trimEnd.
  rewrite filter_visible_rev, filter_visible_trimStart, filter_visible_rev.
  now rewrite rev_involutive, filter_visible_trimStart.
Qed.

Lemma filter_visible_collapseFrom s : forall b,
  filter (fun c => negb (isWhiteSpace c)) (collapseFrom b s)
  = filter (fun c => negb (isWhiteSpace c)) s.
Proof.
  induction s as [|c s IH]; intros b; cbn [collapseFrom]; [reflexivity|].
  destruct (isWhiteSpace c) eqn:Hc.
  - cbn [filter]; rewrite Hc; cbn [negb].
    destruct b; [apply IH|].
    cbn [filter]; change (isWhiteSpace space) with true; cbn [negb]; apply IH.
  - cbn [filter]; rewrite Hc; cbn [negb]; now rewrite IH.
Qed.

Lemma filter_visible_removeForbidden s :
  filter (fun c => negb (isWhiteSpace c)) (removeForbidden s) = filter isKept s.
Proof.
  unfold removeForbidden, isKept.
  induction s as [|c s IH]; [reflexivity|]; cbn [filter].
  destruct (isForbidden c), (isWhiteSpace c) eqn:Hc; cbn [negb andb filter];
    try rewrite Hc; cbn [negb]; now rewrite IH.
Qed.

Lemma filter_nil_iff {A} (p : A -> bool) l :
  filter p l = [] <-> Forall (fun x => p x = false) l.
Proof.
  induction l as [|x l IH]; cbn [filter]; [split; auto|].
  destruct (p x) eqn:Hx; split.
  - discriminate.
  - intros Hall; inversion Hall; congruence.
  - intros E; constructor; [exact Hx | now apply IH].
  - intros Hall; inversion Hall; now apply IH.
Qed.

Lemma sanitizeFilename_visible name :
  filter (fun c => negb (isWhiteSpace c)) (sanitizeFilename name) = filter isKept name.
Proof.
  unfold sanitizeFilename, collapseWhiteSpace.
  now rewrite filter_visible_trim, filter_visible_collapseFrom,
              filter_visible_removeForbidden.
Qed.

Lemma sanitizeFilename_empty name :
  sanitizeFilename name = [] <-> Forall (fun c => isKept c = false) name.
Proof.
  rewrite <- filter_nil_iff, <- sanitizeFilename_visible.
  split; [now intros ->|].
  intros E.
  destruct (sanitizeFilename name) as [|c q] eqn:Es; [reflexivity|].
  destruct (sanitizeFilename_tidy name) as (_ & _ & _ & Hhead & _).
  rewrite Es in Hhead; specialize (Hhead c q eq_refl).
  cbn [filter] in E; rewrite Hhead in E; discriminate.
Qed.

End SanitizeKeeps.

(** X12.  [sanitizeFilename] keeps the characters that are neither
    forbidden nor white space, all of them and in their order, and adds
    none; so the sanitized name is empty exactly when the name holds no
    such character (a title made of question marks gives the empty
    name). *)
Theorem sanitize_keeps_other_characters (name : Filename.jsString) :
  filter (fun c => negb (Filename.isWhiteSpace c)) (Filename.sanitizeFilename name)
  = filter Filename.isKept name
  /\ (Filename.sanitizeFilename name = []
      <-> Forall (fun c => Filename.isKept c = false) name).
Proof.
  split; [apply sanitizeFilename_visible | apply sanitizeFilename_empty].
Qed.

(** ** Partial content *)

Lemma tryBlock_206 type sel range useFfmpeg isDisk name disposition force :
  In (Status 206) (fst (tryBlock type sel range useFfmpeg isDisk name disposition force)) ->
  exists format w,
    sel_format sel = Some format /\ range = Some w
    /\ tryBlock type sel range useFfmpeg isDisk name disposition force
       = ([ SetHeader "Content-Disposition" (Text disposition);
            SetHeader "Cache-Control" (Text "no-store");
            SetHeader "Content-Type" (Text (mimeOf format "video/mp4"));
            SetHeader "Accept-Ranges" (Text "bytes");
            Status 206;
            SetHeader "Content-Range"
              (ContentRangeBytes (range_start w) (range_end w) (contentLength format));
            SetHeader "Content-Length" (Num (windowLength w));
            Download format (Some w);
            Push [Upstream format (Some w)];
            PipelineToRes (FromStream (Upstream format (Some w))) ], None).
Proof.
  unfold tryBlock, saveToDisk.
  destruct (String.eqb type "audio").
  { destruct (sel_format sel) as [format|]; cbn [fst]; [|intros []].
    destruct isDisk, (useFfmpeg && endsWith name ".mp3")%bool; cbn [negb app In];
      intros HIn; members HIn. }
  destruct (sel_format sel) as [format|].
  - destruct range as [w|], isDisk; cbn [negb andb fst app In].
    + intros HIn; members HIn.
    + intros _; exists format, w; auto.
    + destruct (contentLength format) as [n|]; cbn [app In]; intros HIn; members HIn.
    + destruct (contentLength format) as [n|]; [destruct (truthy_number (Some n))|];
        cbn [app In]; intros HIn; members HIn.
  - destruct (sel_videoFormat sel), (sel_audioFormat sel); cbn [fst];
      try destruct useFfmpeg; try destruct isDisk; cbn [negb fst app In];
      intros HIn; members HIn.
Qed.

Lemma windowLength_exact w :
  0 <= range_start w <= range_end w -> range_end w < MAX_EXACT ->
  windowLength w = Whole (range_end w - range_start w + 1).
Proof.
  intros Hw Hsafe; unfold windowLength, difference, addition.
  rewrite (toDouble_exact (range_end w - range_start w)) by lia.
  apply toDouble_exact_le; lia.
Qed.

(** The length of a window is computed on doubles: the window [0, 2^53]
    is announced with 2^53 bytes, not with 2^53 + 1. *)
Lemma windowLength_rounds :
  windowLength (mkRange 0 9007199254740992) = Whole 9007199254740992.
Proof. vm_compute; reflexivity. Qed.

(** X13.  When a request that runs to its end is answered with status
    206, the handler made exactly these calls: the four headers of a
    video answer, status 206, a [Content-Range] header with the window
    and the variant's length, a [Content-Length] of the window's length
    [end - start + 1] as the doubles compute it, the upstream fetch of
    the same window, and the pipe to the response.  The length of the
    variant is known and not zero, the window is the one negotiated
    against it, and [0 <= start <= end]; for an end below 2^53 the
    announced length is [end - start + 1] exactly, and at least 1. *)
Theorem partial_content_is_consistent (H : Host) (Y : Ytdl) (req : request)
    (r : resources) :
  apiMedia H Y req None = Responded r ->
  In (Status 206) (performed r) ->
  exists format total w disposition,
    contentLength format = Some total /\ total <> 0
    /\ parseRangeHeader (header_range req) (Some total) = Some w
    /\ 0 <= range_start w <= range_end w
    /\ (range_end w < MAX_EXACT ->
        windowLength w = Whole (range_end w - range_start w + 1)
        /\ 1 <= range_end w - range_start w + 1)
    /\ performed r
       = [ SetHeader "Content-Disposition" (Text disposition);
           SetHeader "Cache-Control" (Text "no-store");
           SetHeader "Content-Type" (Text (mimeOf format "video/mp4"));
           SetHeader "Accept-Ranges" (Text "bytes");
           Status 206;
           SetHeader "Content-Range"
             (ContentRangeBytes (range_start w) (range_end w) (Some total));
           SetHeader "Content-Length" (Num (windowLength w));
           Download format (Some w);
           Push [Upstream format (Some w)];
           PipelineToRes (FromStream (Upstream format (Some w))) ].
Proof.
  intros Hres HIn.
  destruct (apiMedia_Responded H Y req None r Hres)
    as [(code & error & -> & Hcode)|(url & info & sel & _ & _ & _ & _ & ->)].
  { exfalso; cbn in HIn, Hcode.
    destruct HIn as [E|[E|[]]]; [injection E as ->|discriminate].
    intuition discriminate. }
  assert (Hblock : In (Status 206) (fst (tryBlockOf H req info sel))).
  { destruct (tryBlockOf H req info sel) as [acts own] eqn:E.
    apply runTry_calls in HIn; destruct HIn as [HIn|Hcatch]; [exact HIn|].
    exfalso.
    destruct Hcatch as [(m & Em)|[(m & Em)|[(s & Em)|(j & Em)]]]; try discriminate.
    injection Em as Em.
    pose proof (mapped_status_values m) as Hm; rewrite <- Em in Hm.
    simpl in Hm; intuition discriminate. }
  unfold tryBlockOf in *.
  destruct (tryBlock_206 _ _ _ _ _ _ _ _ Hblock) as (format & w & Hformat & Hrange & ->).
  unfold rangeOf in Hrange; rewrite Hformat in Hrange.
  destruct (contentLength format) as [total|] eqn:Hlen.
  2:{ destruct (header_range req); discriminate. }
  destruct (parseRangeHeader_Some _ _ _ Hrange)
    as (h & m1 & m2 & Hh & E & Hs & He & Hle & Htotal).
  destruct (regex_exec_groups h m1 m2 E) as (_ & Hd1 & _).
  pose proof (NumberOfDigits_nonneg m1 _ Hd1 Hs) as H0.
  exists format, total, w; eexists.
  split; [exact Hlen|]; split; [exact Htotal|]; split; [exact Hrange|].
  split; [lia|]; split; [|reflexivity].
  intros Hsafe; split; [apply windowLength_exact; lia | lia].
Qed.

Lemma partial_content_is_consistent_witness :
  exists format total w disposition,
    contentLength format = Some total /\ total <> 0
    /\ parseRangeHeader
         (header_range (getRequest "video" "highest" "false" (Some "bytes=10-")))
         (Some total) = Some w
    /\ 0 <= range_start w <= range_end w
    /\ (range_end w < MAX_EXACT ->
        windowLength w = Whole (range_end w - range_start w + 1)
        /\ 1 <= range_end w - range_start w + 1)
    /\ performed
         (runTry (tryBlockOf plainHost
                    (getRequest "video" "highest" "false" (Some "bytes=10-"))
                    muxedInfo (Chosen (Some fmtMuxed360) true))
                 None noResources)
       = [ SetHeader "Content-Disposition" (Text disposition);
           SetHeader "Cache-Control" (Text "no-store");
           SetHeader "Content-Type" (Text (mimeOf format "video/mp4"));
           SetHeader "Accept-Ranges" (Text "bytes");
           Status 206;
           SetHeader "Content-Range"
             (ContentRangeBytes (range_start w) (range_end w) (Some total));
           SetHeader "Content-Length" (Num (windowLength w));
           Download format (Some w);
           Push [Upstream format (Some w)];
           PipelineToRes (FromStream (Upstream format (Some w))) ].
Proof.
  apply (partial_content_is_consistent plainHost (specYtdl muxedInfo)
           (getRequest "video" "highest" "false" (Some "bytes=10-")) _ eq_refl).
  cbv; tauto.
Defined.

(** ** Failure inside the [try] block *)













(** ** The refusals: 400, 409 and 500 *)

Lemma mapped_message_values message :
  In (mapped_message (mapYtdlError message))
     [ "Video is private."; "Video is age restricted.";
       "Video is no longer available."; "Access forbidden (possible throttling).";
       "Livestreams are not supported."; "Failed to fetch media." ].
Proof.
  unfold mapYtdlError.
  repeat match goal with
         | |- context [if ?b then _ else _] => destruct b
         end; simpl; auto 10.
Qed.

Lemma catch_call_is_not a :
  isCatchCall a ->
  a <> Json (ErrorJson "Invalid YouTube URL.") /\ a <> Status 409.
Proof.
  intros [(m & ->)|[(m & ->)|[(s & ->)|(j & ->)]]]; split; try discriminate.
  - intros E; injection E as E.
    pose proof (mapped_status_values m) as Hm; rewrite E in Hm.
    simpl in Hm; intuition discriminate.
  - intros E; injection E as E.
    pose proof (mapped_message_values m) as Hm; rewrite E in Hm.
    simpl in Hm; intuition discriminate.
Qed.

Lemma tryBlock_is_not H req info sel a :
  In a (fst (tryBlockOf H req info sel)) ->
  a <> Json (ErrorJson "Invalid YouTube URL.") /\ a <> Status 409.
Proof.
  intros Hblock; tryBlock_calls Hblock; members Hblock;
    subst a; split; discriminate.
Qed.

Lemma runTry_is_not H req info sel fault a :
  In a (performed (runTry (tryBlockOf H req info sel) fault noResources)) ->
  a <> Json (ErrorJson "Invalid YouTube URL.") /\ a <> Status 409.
Proof.
  destruct (tryBlockOf H req info sel) as [acts own] eqn:E.
  intros HIn; apply runTry_calls in HIn; destruct HIn as [HIn|HIn].
  - apply (tryBlock_is_not H req info sel); now rewrite E.
  - now apply catch_call_is_not.
Qed.

(** X15.  A request whose [url] is missing, empty or refused by either
    URL test is answered with status 400 and the message "Invalid YouTube
    URL.", and with nothing else: [ytdl.getInfo] plays no part.  No other
    request ever gets that message. *)
Theorem invalid_url_is_400 (H : Host) (Y : Ytdl) (req : request)
    (fault : option (nat * string)) :
  (urlRefused H Y req = true ->
   apiMedia H Y req fault
   = Responded (mkResources [] None
                  [Status 400; Json (ErrorJson "Invalid YouTube URL.")]))
  /\ (forall r, apiMedia H Y req fault = Responded r ->
                In (Json (ErrorJson "Invalid YouTube URL.")) (performed r) ->
                urlRefused H Y req = true).
Proof.
  unfold urlRefused, apiMedia.
  destruct (query_url req) as [url|]; [|split; auto].
  destruct (_ || _); [split; auto|].
  split; [discriminate|].
  intros r.
  destruct (getInfo Y url) as [info|err].
  2:{ intros E; injection E as <-; cbn.
      intros [E|[E|[]]]; [discriminate|]; exfalso; injection E as E.
      pose proof (mapped_message_values err) as Hm; rewrite E in Hm.
      simpl in Hm; intuition discriminate. }
  destruct (pickFormat _ _ _ _ _ _) as [sel|]; [|discriminate].
  destruct (_ && _).
  { intros E; injection E as <-; cbn; intros [E|[E|[]]]; discriminate. }
  intros E; injection E as <-; intros HIn; exfalso.
  now apply (runTry_is_not H req info sel fault) in HIn.
Qed.

Lemma invalid_url_is_400_witness :
  apiMedia plainHost (specYtdl splitInfo)
           (mkRequest (Some "") None None None None None None None) None
  = Responded (mkResources [] None
                 [Status 400; Json (ErrorJson "Invalid YouTube URL.")]).
Proof.
  apply (proj1 (invalid_url_is_400 plainHost (specYtdl splitInfo)
                  (mkRequest (Some "") None None None None None None None) None)).
  reflexivity.
Defined.

Lemma filter_empty_or_not {A} (p : A -> bool) (l : list A) :
  filter p l = [] \/ filter p l <> [].
Proof. destruct (filter p l); [now left | right; discriminate]. Qed.

(** Selection with a [chooseFormat] that chooses when it can: it returns,
    and it finds nothing viable exactly when the variants leave nothing
    to serve. *)
Lemma pickFormat_viability H Y info type quality useFfmpeg :
  choosesWhenPossible Y ->
  exists sel,
    pickFormat H Y info type quality useFfmpeg = Normal sel
    /\ (noViableFormat sel = true <-> nothingToServe info type useFfmpeg).
Proof.
  intros (Hsome & Hnone); unfold pickFormat, nothingToServe, filterFormats_audioonly.
  set (q := parseQuality H quality).
  destruct (String.eqb type "audio").
  - destruct (filter_empty_or_not isAudioOnly (formats info)) as [E|Hne].
    + rewrite E, Hnone; eexists; split; [reflexivity|]; cbn; tauto.
    + destruct (Hsome _ q Hne) as (f & -> & _).
      eexists; split; [reflexivity|]; cbn; split; [discriminate | contradiction].
  - destruct (filter_empty_or_not isMuxedFormat (formats info)) as [E|Hne].
    2:{ assert (Hlen : Nat.eqb (length (filter isMuxedFormat (formats info))) 0 = false).
        { destruct (filter isMuxedFormat (formats info)); [congruence|reflexivity]. }
        rewrite Hlen; cbn [negb].
        destruct (Hsome _ q Hne) as (f & -> & _).
        eexists; split; [reflexivity|]; cbn; split; [discriminate | tauto]. }
    rewrite E; cbn [length Nat.eqb negb].
    destruct useFfmpeg; cbn [negb].
    2:{ eexists; split; [reflexivity|]; cbn; tauto. }
    assert (Haudio : exists a, chooseFormat Y (filter isAudioOnly (formats info)) Highest
                               = Normal a).
    { destruct (filter_empty_or_not isAudioOnly (formats info)) as [Ea|Hna].
      - rewrite Ea, Hnone; eauto.
      - destruct (Hsome _ Highest Hna) as (f & -> & _); eauto. }
    destruct Haudio as (a & Ha).
    destruct (filter_empty_or_not isVideoOnly (formats info)) as [Ev|Hnv].
    + rewrite Ev, Hnone; cbn [bind]; rewrite Ha; cbn [bind].
      eexists; split; [reflexivity|]; cbn; tauto.
    + destruct (Hsome _ q Hnv) as (f & -> & _); cbn [bind]; rewrite Ha; cbn [bind].
      eexists; split; [reflexivity|]; cbn.
      split; [discriminate|]; intros (_ & [Hff|Hv]); [discriminate | contradiction].
Qed.

(** X16.  With a [chooseFormat] that chooses when it can, a request with
    an accepted URL whose description is fetched is answered with status
    409 exactly when the variants leave nothing to serve: an audio
    request without audio-only variant; any other request without muxed
    variant and, external muxing off, or on but without video-only
    variant.  The 409 answer is then the whole answer. *)
Theorem no_viable_format_is_409 (H : Host) (Y : Ytdl) (req : request)
    (fault : option (nat * string)) (url : string) (info : videoInfo) :
  choosesWhenPossible Y ->
  query_url req = Some url -> urlRefused H Y req = false ->
  getInfo Y url = Normal info ->
  exists r,
    apiMedia H Y req fault = Responded r
    /\ (In (Status 409) (performed r)
        <-> nothingToServe info (typeOf req) (useFfmpegOf req))
    /\ (nothingToServe info (typeOf req) (useFfmpegOf req) ->
        r = mkResources [] None
              [ Status 409;
                Json (ErrorJson
                  "No muxed format available. Enable ffmpeg to merge video+audio streams.") ]).
Proof.
  intros HY Hurl Hok Hinfo.
  destruct (pickFormat_viability H Y info (typeOf req) (qualityOf req)
              (useFfmpegOf req) HY) as (sel & Hpick & Hviable).
  unfold urlRefused in Hok; unfold apiMedia.
  rewrite Hurl in Hok |- *; rewrite Hok, Hinfo.
  fold (typeOf req) (qualityOf req) (useFfmpegOf req); rewrite Hpick.
  fold (noViableFormat sel).
  destruct (noViableFormat sel) eqn:Hno.
  - eexists; split; [reflexivity|]; split; [|reflexivity].
    split; [intros _; now apply Hviable | intros _; cbn; auto].
  - eexists; split; [reflexivity|]; split.
    + split.
      * intros HIn; exfalso.
        now apply (runTry_is_not H req info sel fault) in HIn.
      * intros Hnothing; apply Hviable in Hnothing; discriminate.
    + intros Hnothing; apply Hviable in Hnothing; discriminate.
Qed.

Lemma specYtdl_choosesWhenPossible info : choosesWhenPossible (specYtdl info).
Proof.
  split; [apply specYtdl_choosesCandidate|].
  intros q; simpl; now destruct q.
Qed.

Lemma no_viable_format_is_409_witness :
  exists r,
    apiMedia plainHost (specYtdl muxedOnlyInfo)
             (getRequest "audio" "highest" "true" None) None = Responded r
    /\ (In (Status 409) (performed r)
        <-> nothingToServe muxedOnlyInfo
              (typeOf (getRequest "audio" "highest" "true" None))
              (useFfmpegOf (getRequest "audio" "highest" "true" None)))
    /\ (nothingToServe muxedOnlyInfo
          (typeOf (getRequest "audio" "highest" "true" None))
          (useFfmpegOf (getRequest "audio" "highest" "true" None)) ->
        r = mkResources [] None
              [ Status 409;
                Json (ErrorJson
                  "No muxed format available. Enable ffmpeg to merge video+audio streams.") ]).
Proof.
  apply (no_viable_format_is_409 plainHost (specYtdl muxedOnlyInfo)
           (getRequest "audio" "highest" "true" None) None "https://youtu.be/x"
           muxedOnlyInfo).
  - apply specYtdl_choosesWhenPossible.
  - reflexivity.
  - reflexivity.
  - reflexivity.
Defined.

(** X17.  With external muxing enabled and a [chooseFormat] that chooses
    when it can, a video request for a source that has video-only
    variants but neither a muxed nor an audio-only variant is not
    refused with 409: it reaches the [try] block, which opens no stream
    and answers 500 "Unable to stream media.". *)
Theorem video_without_audio_is_500 (H : Host) (Y : Ytdl) (req : request)
    (url : string) (info : videoInfo) :
  choosesWhenPossible Y ->
  query_url req = Some url -> urlRefused H Y req = false ->
  getInfo Y url = Normal info ->
  typeOf req <> "audio" -> useFfmpegOf req = true ->
  filter isMuxedFormat (formats info) = [] ->
  filter isAudioOnly (formats info) = [] ->
  filter isVideoOnly (formats info) <> [] ->
  apiMedia H Y req None
  = Responded (mkResources [] None
                 [Status 500; Json (ErrorJson "Unable to stream media.")]).
Proof.
  intros (Hsome & Hnone) Hurl Hok Hinfo Htype Hff Hmux Haudio Hvideo.
  unfold urlRefused in Hok; unfold apiMedia.
  rewrite Hurl in Hok |- *; rewrite Hok, Hinfo.
  fold (typeOf req) (qualityOf req) (useFfmpegOf req).
  apply String.eqb_neq in Htype.
  unfold pickFormat; rewrite Htype, Hmux, Hff, Haudio, (Hnone Highest).
  cbn [length Nat.eqb negb].
  destruct (Hsome _ (parseQuality H (qualityOf req)) Hvideo) as (f & -> & _).
  cbn [bind sel_format sel_videoFormat truthy_format negb andb].
  unfold deliver, tryBlock; rewrite Htype; reflexivity.
Qed.

Lemma video_without_audio_is_500_witness :
  apiMedia plainHost (specYtdl videoOnlyInfo)
           (getRequest "video" "highest" "true" None) None
  = Responded (mkResources [] None
                 [Status 500; Json (ErrorJson "Unable to stream media.")]).
Proof.
  apply (video_without_audio_is_500 plainHost (specYtdl videoOnlyInfo)
           (getRequest "video" "highest" "true" None) "https://youtu.be/x"
           videoOnlyInfo);
    try reflexivity; try discriminate.
  apply specYtdl_choosesWhenPossible.
Defined.

(** ** The name of the response *)

(** X18.  Whatever the default name and the extension, the name of the
    response ends in a dot and the extension, and building it again from
    itself changes nothing: a name that already carries the extension
    does not get it twice. *)
Theorem response_name_carries_extension (defaultName ext : string) :
  endsWith (responseFilenameOf defaultName ext) ("." ++ ext) = true
  /\ (exists p, responseFilenameOf defaultName ext = (p ++ "." ++ ext)%string)
  /\ responseFilenameOf (responseFilenameOf defaultName ext) ext
     = responseFilenameOf defaultName ext.
Proof.
  assert (Hends : endsWith (responseFilenameOf defaultName ext) ("." ++ ext) = true).
  { apply endsWith_iff, responseFilenameOf_suffix. }
  split; [exact Hends|split; [apply responseFilenameOf_suffix|]].
  unfold responseFilenameOf at 1; now rewrite Hends.
Qed.
